(** * libmicrohttpd: response objects and the TLS connection adapter

    A shallow embedding of [src/daemon/response.c] and
    [src/daemon/connection_https.c], with the properties the specification
    states about them.

    Conventions of the embedding.
    - A C integer is a [Z]; arithmetic that can leave the range of its C
      type is wrapped explicitly ([wrap_uint], [wrap_int], [wrap_time]).
    - A non-NULL [const char *] is the sequence of bytes before its
      terminating NUL, a [cstring]; a pointer that may be NULL is an
      [option].
    - The singly linked list hanging off [first_header] is a Rocq [list]
      whose head is the node [first_header] points to; the [next] field is
      the tail.
    - [malloc] and [strdup] are taken to succeed: the source dereferences
      their results unchecked. *)

From Stdlib Require Import ZArith List String Ascii Bool Lia.
Import ListNotations.
Local Open Scope Z_scope.

(** * Machine integers *)

Module CInt.

Definition UINT_MAX : Z := 2 ^ 32 - 1.
Definition INT_MAX : Z := 2 ^ 31 - 1.

(** [unsigned int]: arithmetic modulo 2^32. *)
Definition wrap_uint (x : Z) : Z := x mod 2 ^ 32.

(** [int]: 32 bits, two's complement. *)
Definition wrap_int (x : Z) : Z := (x + 2 ^ 31) mod 2 ^ 32 - 2 ^ 31.

(** [time_t]: a signed 64-bit integer (the LP64 targets the daemon is
    built for). *)
Definition TIME_MAX : Z := 2 ^ 63 - 1.
Definition wrap_time (x : Z) : Z := (x + 2 ^ 63) mod 2 ^ 64 - 2 ^ 63.

(** C truth value of an [int] used as a condition. *)
Definition truthy (x : Z) : bool := negb (x =? 0).

End CInt.

(** * C strings *)

Module CString.

Definition cstring : Type := string.

Definition TAB : ascii := ascii_of_nat 9.
Definition LF : ascii := ascii_of_nat 10.
Definition CR : ascii := ascii_of_nat 13.

Definition lit (c : ascii) : cstring := String c EmptyString.

Definition strlen (s : cstring) : Z := Z.of_nat (String.length s).

(** [strcmp]: the sign of the difference of the first pair of bytes that
    differ, bytes compared as [unsigned char]; the terminating NUL sorts
    before every byte of a string. *)
Fixpoint strcmp (a b : cstring) : Z :=
  match a, b with
  | EmptyString, EmptyString => 0
  | EmptyString, String _ _ => -1
  | String _ _, EmptyString => 1
  | String x a', String y b' =>
      if (nat_of_ascii x =? nat_of_ascii y)%nat then strcmp a' b'
      else if (nat_of_ascii x <? nat_of_ascii y)%nat then -1 else 1
  end.

(** [strstr]: the offset of the first occurrence of [needle] in
    [haystack], [None] for the NULL result. *)
Fixpoint strstr (haystack needle : cstring) : option nat :=
  if String.prefix needle haystack then Some 0%nat
  else match haystack with
       | EmptyString => None
       | String _ rest => option_map S (strstr rest needle)
       end.

(** [strdup] yields a fresh buffer holding the same bytes. *)
Definition strdup (s : cstring) : cstring := s.

(** Occurrence of a byte in a string; not a function of the source, it
    says what a search for a one-byte needle decides. *)
Fixpoint mem (c : ascii) (s : cstring) : bool :=
  match s with
  | EmptyString => false
  | String x rest => Ascii.eqb c x || mem c rest
  end.

End CString.

(** * Response objects ([response.c]) *)

Module Response.
Import CInt CString.

(** The two results of the public API, as [microhttpd.h] defines them. *)
Definition MHD_YES : Z := 1.
Definition MHD_NO : Z := 0.

(** [enum MHD_ValueKind] of [microhttpd.h]: what an entry of a header
    list is (a response header, a request header, a cookie, a POST field,
    a GET argument, a footer). *)
Inductive MHD_ValueKind : Type :=
| MHD_RESPONSE_HEADER_KIND
| MHD_HEADER_KIND
| MHD_COOKIE_KIND
| MHD_POSTDATA_KIND
| MHD_GET_ARGUMENT_KIND
| MHD_FOOTER_KIND.

(** [struct MHD_HTTP_Header]; the [next] pointer is the tail of the list
    the node sits in. *)
Record MHD_HTTP_Header : Type := mkHeader {
  header : cstring;
  value : cstring;
  kind : MHD_ValueKind
}.

(** Data buffers live in a heap of blocks; a [void *] into it is a block
    index and an offset. *)
Record ptr : Type := mkPtr { block : nat; offset : nat }.

Definition heap : Type := list (list ascii).

(** The bytes [n] bytes long that [p] points to, if they are all inside
    its block. *)
Definition load (h : heap) (p : ptr) (n : nat) : option (list ascii) :=
  match nth_error h (block p) with
  | Some bytes =>
      if (offset p + n <=? List.length bytes)%nat
      then Some (firstn n (skipn (offset p) bytes))
      else None
  | None => None
  end.

(** [malloc (size)]: a new block, never one that is already there. *)
Definition malloc (h : heap) (size : nat) : ptr * heap :=
  (mkPtr (List.length h) 0, h ++ [repeat zero size]).

Fixpoint set_block (h : heap) (b : nat) (bytes : list ascii) : heap :=
  match h, b with
  | [], _ => []
  | _ :: rest, O => bytes :: rest
  | x :: rest, S b' => x :: set_block rest b' bytes
  end.

(** [memcpy (dst, src, n)] for a [dst] that [malloc (n)] just returned;
    reading through NULL or outside the source block is undefined, hence
    [None]. *)
Definition memcpy (h : heap) (dst : ptr) (src : option ptr) (n : nat)
  : option heap :=
  match src with
  | Some p =>
      match load h p n with
      | Some bytes => Some (set_block h (block dst) bytes)
      | None => None
      end
  | None => None
  end.

(** Function pointers stored in a response: content readers are the
    application's, named by a number; the free hook is either libc's
    [free] or the application's. *)
Definition MHD_ContentReaderCallback : Type := nat.

Inductive MHD_ContentReaderFreeCallback : Type :=
| libc_free
| user_free (f : nat).

(** [struct MHD_Response] ([internal.h]); [reference_count] is an
    [unsigned int], the sizes are [size_t]. The mutex carries no data. *)
Record MHD_Response : Type := mkResponse {
  first_header : list MHD_HTTP_Header;
  data : option ptr;
  crc_cls : option ptr;
  crc : option MHD_ContentReaderCallback;
  crfc : option MHD_ContentReaderFreeCallback;
  reference_count : Z;
  total_size : N;
  data_size : N
}.

Definition set_first_header (r : MHD_Response) (l : list MHD_HTTP_Header)
  : MHD_Response :=
  mkResponse l (data r) (crc_cls r) (crc r) (crfc r)
             (reference_count r) (total_size r) (data_size r).

Definition set_reference_count (r : MHD_Response) (n : Z) : MHD_Response :=
  mkResponse (first_header r) (data r) (crc_cls r) (crc r) (crfc r)
             n (total_size r) (data_size r).

(** What a call handed back to the allocator, in order. *)
Inductive released : Type :=
| free_string (s : cstring)
| free_node (h : MHD_HTTP_Header)
| free_response.

(** ** [MHD_add_response_header] *)

Definition found (r : option nat) : bool :=
  match r with Some _ => true | None => false end.

Definition MHD_add_response_header
  (response : option MHD_Response) (hdr content : option cstring)
  : Z * option MHD_Response :=
  match response, hdr, content with
  | Some r, Some h, Some c =>
      if (strlen h =? 0) || (strlen c =? 0)
         || found (strstr h (lit TAB))
         || found (strstr h (lit CR))
         || found (strstr h (lit LF))
         || found (strstr c (lit TAB))
         || found (strstr c (lit CR))
         || found (strstr c (lit LF))
      then (MHD_NO, response)
      else
        let node := mkHeader (strdup h) (strdup c) MHD_HEADER_KIND in
        (MHD_YES, Some (set_first_header r (node :: first_header r)))
  | _, _, _ => (MHD_NO, response)
  end.

(** ** [MHD_del_response_header] *)

Definition matches (h c : cstring) (pos : MHD_HTTP_Header) : bool :=
  (0 =? strcmp h (header pos)) && (0 =? strcmp c (value pos)).

(** The [while] loop: [Some] of the relinked list when a node was
    unlinked, [None] when [pos] ran off the end. *)
Fixpoint del_loop (h c : cstring) (pos : list MHD_HTTP_Header)
  : option (list MHD_HTTP_Header * list released) :=
  match pos with
  | [] => None
  | p :: next =>
      if matches h c p
      then Some (next, [free_string (header p); free_string (value p);
                        free_node p])
      else match del_loop h c next with
           | Some (l, fr) => Some (p :: l, fr)
           | None => None
           end
  end.

(** [response] is dereferenced unchecked, so it is not NULL here. *)
Definition MHD_del_response_header
  (response : MHD_Response) (hdr content : option cstring)
  : Z * MHD_Response * list released :=
  match hdr, content with
  | Some h, Some c =>
      match del_loop h c (first_header response) with
      | Some (l, fr) => (MHD_YES, set_first_header response l, fr)
      | None => (MHD_NO, response, [])
      end
  | _, _ => (MHD_NO, response, [])
  end.

(** ** [MHD_get_response_headers] *)

(** [MHD_KeyValueIterator]: the callback reads and writes what its [cls]
    argument points to, a state of type [S]. *)
Definition MHD_KeyValueIterator (S : Type) : Type :=
  S -> MHD_ValueKind -> cstring -> cstring -> Z * S.

Fixpoint get_loop {S : Type} (iterator : option (MHD_KeyValueIterator S))
  (cls : S) (numHeaders : Z) (pos : list MHD_HTTP_Header) : Z * S :=
  match pos with
  | [] => (numHeaders, cls)
  | p :: next =>
      let numHeaders := wrap_int (numHeaders + 1) in
      match iterator with
      | None => get_loop iterator cls numHeaders next
      | Some it =>
          let (r, cls') := it cls (kind p) (header p) (value p) in
          if r =? MHD_YES then get_loop iterator cls' numHeaders next
          else (numHeaders, cls')
      end
  end.

Definition MHD_get_response_headers {S : Type} (response : MHD_Response)
  (iterator : option (MHD_KeyValueIterator S)) (iterator_cls : S) : Z * S :=
  get_loop iterator iterator_cls 0 (first_header response).

(** ** [MHD_create_response_from_callback] *)

(** Both constructors take the result of [pthread_mutex_init] as
    [mutex_init]: 0 when the mutex was initialised, an error number
    otherwise. *)
Definition MHD_create_response_from_callback (mutex_init : Z) (size : N)
  (crc : option MHD_ContentReaderCallback) (crc_cls : option ptr)
  (crfc : option MHD_ContentReaderFreeCallback) : option MHD_Response :=
  match crc with
  | None => None
  | Some _ =>
      if negb (mutex_init =? 0) then None
      else Some (mkResponse [] None crc_cls crc crfc 1 size 0)
  end.

(** ** [MHD_create_response_from_data] *)

(** The outer [option] is [None] where the C code has no defined
    behaviour ([memcpy] out of the caller's buffer); inside, [None] is the
    NULL result. The heap is the one the call leaves behind. *)
Definition MHD_create_response_from_data (h : heap) (mutex_init : Z)
  (size : N) (data : option ptr) (must_free must_copy : Z)
  : option (option MHD_Response * heap) :=
  match data, (0 <? size)%N with
  | None, true => Some (None, h)
  | _, _ =>
      if negb (mutex_init =? 0) then Some (None, h)
      else
        let fill (h' : heap) (data : option ptr) (must_free : Z) :=
          Some (Some (mkResponse []
                        data
                        (if truthy must_free then data else None)
                        None
                        (if truthy must_free then Some libc_free else None)
                        1 size size),
                h') in
        if truthy must_copy && (0 <? size)%N then
          let (tmp, h1) := malloc h (N.to_nat size) in
          match memcpy h1 tmp data (N.to_nat size) with
          | Some h2 => fill h2 (Some tmp) 1
          | None => None
          end
        else fill h data must_free
  end.

(** ** [MHD_destroy_response] and [MHD_increment_response_rc] *)

(** The [while] loop that empties the header list. *)
Fixpoint free_headers (l : list MHD_HTTP_Header) : list released :=
  match l with
  | [] => []
  | pos :: next =>
      free_string (header pos) :: free_string (value pos) :: free_node pos
      :: free_headers next
  end.

(** The result is the response as the call leaves it, [None] once it has
    been freed (or was NULL to begin with), together with what was
    released. Locking and unlocking the mutex does nothing to a single
    thread. *)
Definition MHD_destroy_response (response : option MHD_Response)
  : option MHD_Response * list released :=
  match response with
  | None => (None, [])
  | Some r =>
      let rc := wrap_uint (reference_count r - 1) in
      if negb (0 =? rc) then (Some (set_reference_count r rc), [])
      else (None, free_headers (first_header r) ++ [free_response])
  end.

Definition MHD_increment_response_rc (response : MHD_Response)
  : MHD_Response :=
  set_reference_count response (wrap_uint (reference_count response + 1)).

End Response.

(** * The vocabulary of the specification, for responses *)

Module ResponseSpec.
Import CInt CString Response.

(** A byte occurs in a string. *)
Definition contains (c : ascii) (s : cstring) : Prop :=
  In c (list_ascii_of_string s).

(** A string argument no header can be made of: NULL, empty, or holding a
    tab, a carriage return or a line feed. *)
Definition bad_string (s : option cstring) : Prop :=
  match s with
  | None => True
  | Some s =>
      s = EmptyString \/ contains TAB s \/ contains CR s \/ contains LF s
  end.

Definition rejected (response : option MHD_Response)
  (hdr content : option cstring) : Prop :=
  response = None \/ bad_string hdr \/ bad_string content.

(** An entry is the one a (name, value) pair asks for. *)
Definition is_entry (h c : cstring) (e : MHD_HTTP_Header) : Prop :=
  header e = h /\ value e = c.

(** Iterating with [it] from callback state [s] over the list [l] visits
    exactly the entries [visited], in this order, and leaves the callback
    state [s']: the callback is called on one entry after the other for as
    long as it answers [MHD_YES], and the entry on which it answers
    anything else is the last one visited. *)
Inductive iterated {S : Type} (it : MHD_KeyValueIterator S)
  : S -> list MHD_HTTP_Header -> list MHD_HTTP_Header -> S -> Prop :=
| iterated_end (s : S) : iterated it s [] [] s
| iterated_stop (s s' : S) (p : MHD_HTTP_Header) (next : list MHD_HTTP_Header)
    (ret : Z) :
    it s (kind p) (header p) (value p) = (ret, s') ->
    ret <> MHD_YES ->
    iterated it s (p :: next) [p] s'
| iterated_next (s s' s'' : S) (p : MHD_HTTP_Header)
    (next visited : list MHD_HTTP_Header) :
    it s (kind p) (header p) (value p) = (MHD_YES, s') ->
    iterated it s' next visited s'' ->
    iterated it s (p :: next) (p :: visited) s''.

(** An iterator that writes down every (name, value) pair it is shown
    and asks for the next. *)
Definition collect : MHD_KeyValueIterator (list (cstring * cstring)) :=
  fun seen _ h v => (MHD_YES, seen ++ [(h, v)]).

Definition headers_seen (r : MHD_Response) : list (cstring * cstring) :=
  snd (MHD_get_response_headers r (Some collect) []).

(** A response nobody has added a header to. *)
Definition fresh (r : MHD_Response) : Prop := first_header r = [].

(** The entry a successful call makes of a pair, and the pair an iterator
    is shown for an entry. *)
Definition node_of (p : cstring * cstring) : MHD_HTTP_Header :=
  mkHeader (fst p) (snd p) MHD_HEADER_KIND.

Definition pair_of (e : MHD_HTTP_Header) : cstring * cstring :=
  (header e, value e).

(** A run of [MHD_add_response_header] calls, one per pair, first pair
    first: the results of the calls and the response they leave. *)
Fixpoint add_all (response : option MHD_Response)
  (pairs : list (cstring * cstring)) : list Z * option MHD_Response :=
  match pairs with
  | [] => ([], response)
  | (h, c) :: rest =>
      let (ret, response') :=
        MHD_add_response_header response (Some h) (Some c) in
      let (rets, final) := add_all response' rest in
      (ret :: rets, final)
  end.

(** A response with three headers, and an iterator that counts its calls
    and gives up on the second. *)
Definition three_headers : MHD_Response :=
  mkResponse [mkHeader "a" "1" MHD_HEADER_KIND;
              mkHeader "b" "2" MHD_HEADER_KIND;
              mkHeader "c" "3" MHD_HEADER_KIND]%string
             None None None None 1 0 0.

Definition stop_at_second : MHD_KeyValueIterator nat :=
  fun n _ _ _ => (if Nat.eqb n 1 then MHD_NO else MHD_YES, S n).

(** Modelled from the spec: a response shared between the application and
    the connections it is queued against. Queueing is done by
    [MHD_queue_response] of [connection.c], which is not part of this
    tree; section 3 has it increment the reference count. A connection
    that is done with the response and the application giving up its own
    reference both call [MHD_destroy_response]. [cell] is the response
    object, [None] once its memory is gone. *)
Record shared : Type := mkShared {
  cell : option MHD_Response;
  holders : nat;
  app_holds : bool
}.

Inductive op : Type := queue | finish | release.

(** [None]: the operation cannot happen in this state (nothing to queue,
    no connection holding the response, no reference left to release). *)
Definition step (o : op) (st : shared) : option shared :=
  match o with
  | queue =>
      match cell st with
      | Some r =>
          Some (mkShared (Some (MHD_increment_response_rc r))
                         (S (holders st)) (app_holds st))
      | None => None
      end
  | finish =>
      match holders st with
      | S k =>
          Some (mkShared (fst (MHD_destroy_response (cell st)))
                         k (app_holds st))
      | O => None
      end
  | release =>
      if app_holds st
      then Some (mkShared (fst (MHD_destroy_response (cell st)))
                          (holders st) false)
      else None
  end.

Fixpoint steps (ops : list op) (st : shared) : option shared :=
  match ops with
  | [] => Some st
  | o :: rest =>
      match step o st with
      | Some st' => steps rest st'
      | None => None
      end
  end.

(** The application has just created [r] and holds the only reference. *)
Definition created (r : MHD_Response) : shared := mkShared (Some r) 0 true.

(** The count is the number of connections holding the response, plus one
    while the application holds it; the memory is gone only when nobody
    holds it. *)
Definition balanced (st : shared) : Prop :=
  match cell st with
  | Some r =>
      reference_count r =
        Z.of_nat (holders st) + (if app_holds st then 1 else 0)
      /\ 1 <= reference_count r
  | None => holders st = O /\ app_holds st = false
  end.

(** The caller's side of [MHD_create_response_from_data]: a non-NULL
    [data] points to [size] bytes that can be read. *)
Definition readable (h : heap) (data : option ptr) (size : N) : Prop :=
  match data with
  | Some p => load h p (N.to_nat size) <> None
  | None => True
  end.

(** A heap with one buffer of the caller's, and a pointer into it. *)
Definition example_heap : heap :=
  [list_ascii_of_string "hello, world"].

Definition example_data : ptr := mkPtr 0 7.

(** The response and the two headers of the example runs. *)
Definition example_response : MHD_Response :=
  mkResponse [] None None None None 1 0 0.

Definition example_pairs : list (cstring * cstring) :=
  [("Content-Type", "text/plain"); ("Server", "mhd")]%string.

End ResponseSpec.

(** * Runs of response operations *)

Module ResponseOps.
Import CInt CString Response ResponseSpec.

(** The calls an application makes on the header list of a response it
    holds, with the arguments it passes (a NULL string is [None]). *)
Inductive header_op : Type :=
| op_add (hdr content : option cstring)
| op_del (hdr content : option cstring).

(** The response a call leaves; [MHD_add_response_header] on a response
    that is there gives back a response that is there. *)
Definition apply_op (r : MHD_Response) (o : header_op) : MHD_Response :=
  match o with
  | op_add h c =>
      match snd (MHD_add_response_header (Some r) h c) with
      | Some r' => r'
      | None => r
      end
  | op_del h c => snd (fst (MHD_del_response_header r h c))
  end.

Definition apply_ops (ops : list header_op) (r : MHD_Response)
  : MHD_Response :=
  fold_left apply_op ops r.

(** An entry as [MHD_add_response_header] makes them: of kind header,
    with a name and a value that are not empty and hold no tab, carriage
    return or line feed. *)
Definition clean (e : MHD_HTTP_Header) : Prop :=
  kind e = MHD_HEADER_KIND /\
  ~ bad_string (Some (header e)) /\ ~ bad_string (Some (value e)).

(** The pairs of a run of [MHD_add_response_header] calls that were
    accepted, given the results of the calls. *)
Definition accepted (pairs : list (cstring * cstring)) (rets : list Z)
  : list (cstring * cstring) :=
  map fst (filter (fun pr => snd pr =? MHD_YES) (combine pairs rets)).

(** What destroying a response releases for one header pair. *)
Definition release_of (p : cstring * cstring) : list released :=
  [free_string (fst p); free_string (snd p); free_node (node_of p)].

(** [k] calls of [MHD_destroy_response] in a row, each on what the one
    before left. *)
Fixpoint destroy_times (k : nat) (response : option MHD_Response)
  : option MHD_Response * list released :=
  match k with
  | O => (response, [])
  | S k' =>
      let (r1, f1) := MHD_destroy_response response in
      let (r2, f2) := destroy_times k' r1 in
      (r2, f1 ++ f2)
  end.

(** Runs used as examples. *)
Definition example_ops : list header_op :=
  [op_add (Some "Server") (Some "mhd");
   op_add (Some "Bad") (Some (String "x" (String LF "y")));
   op_add None (Some "v");
   op_del (Some "a") (Some "1");
   op_add (Some "Age") (Some "0")]%string.

Definition mixed_pairs : list (cstring * cstring) :=
  [("Server", "mhd"); ("Bad", String "x" (String LF "y"));
   ("Age", "0")]%string.

End ResponseOps.

(** * The mutex of a response *)

Module ResponseLocking.
Import CInt CString Response.

(** What a function of [response.c] does to the mutex of a response and
    what it stores in the response, in program order: the calls of
    [pthread_mutex_lock], [pthread_mutex_unlock] and
    [pthread_mutex_destroy], the stores to [reference_count] (with the
    count stored) and the stores that change the header list (with the
    list they leave). *)
Inductive response_event : Type :=
| mutex_locked
| mutex_unlocked
| mutex_destroyed
| count_written (n : Z)
| headers_written (l : list MHD_HTTP_Header).


(** The loop of [MHD_destroy_response] stores the rest of the list in
    [first_header] once per entry. *)
Fixpoint unlink_events (l : list MHD_HTTP_Header) : list response_event :=
  match l with
  | [] => []
  | _ :: next => headers_written next :: unlink_events next
  end.

(** [MHD_destroy_response]: nothing for NULL; otherwise lock, decrement,
    unlock, and when the count has come to zero destroy the mutex and
    empty the header list. *)
Definition MHD_destroy_response_events (response : option MHD_Response)
  : (option MHD_Response * list released) * list response_event :=
  (MHD_destroy_response response,
   match response with
   | None => []
   | Some r =>
       let rc := wrap_uint (reference_count r - 1) in
       [mutex_locked; count_written rc]
       ++ (if negb (0 =? rc) then [mutex_unlocked]
           else [mutex_unlocked; mutex_destroyed]
                ++ unlink_events (first_header r))
   end).







End ResponseLocking.

(** * The TLS connection adapter ([connection_https.c]) *)

Module ConnectionHttps.
Import CInt.

Definition MHD_YES : Z := Response.MHD_YES.
Definition MHD_NO : Z := Response.MHD_NO.

(** [gnutls.h]: the handshake results the adapter tells apart. *)
Definition GNUTLS_E_SUCCESS : Z := 0.
Definition GNUTLS_E_AGAIN : Z := -28.
Definition GNUTLS_E_INTERRUPTED : Z := -52.

(** Modelled from the spec: [enum MHD_CONNECTION_STATE] of [internal.h],
    which is not part of this tree. These are the states of the table in
    section 4.4 and the state of section 4.5 that a TLS connection is in
    until its handshake is done, under the names the source gives the
    three it mentions. *)
Inductive MHD_CONNECTION_STATE : Type :=
| MHD_CONNECTION_INIT
| MHD_CONNECTION_URL_RECEIVED
| MHD_CONNECTION_HEADER_PART_RECEIVED
| MHD_CONNECTION_HEADERS_RECEIVED
| MHD_CONNECTION_HEADERS_PROCESSED
| MHD_CONNECTION_CONTINUE_SENDING
| MHD_CONNECTION_CONTINUE_SENT
| MHD_CONNECTION_BODY_RECEIVED
| MHD_CONNECTION_FOOTER_PART_RECEIVED
| MHD_CONNECTION_FOOTERS_RECEIVED
| MHD_CONNECTION_HEADERS_SENDING
| MHD_CONNECTION_HEADERS_SENT
| MHD_CONNECTION_NORMAL_BODY_READY
| MHD_CONNECTION_NORMAL_BODY_UNREADY
| MHD_CONNECTION_CHUNKED_BODY_READY
| MHD_CONNECTION_CHUNKED_BODY_UNREADY
| MHD_CONNECTION_BODY_SENT
| MHD_CONNECTION_FOOTERS_SENT
| MHD_CONNECTION_CLOSED
| MHD_TLS_CONNECTION_INIT.

(** Modelled from the spec: [enum MHD_RequestTerminationCode] of
    [microhttpd.h], which is not part of this tree. These are the five
    classes of termination of section 4.4 (completed-ok, with-error,
    timeout, daemon-shutdown, client-abort), under the names the source
    gives the three it mentions. *)
Inductive MHD_RequestTerminationCode : Type :=
| MHD_REQUEST_TERMINATED_COMPLETED_OK
| MHD_REQUEST_TERMINATED_WITH_ERROR
| MHD_REQUEST_TERMINATED_TIMEOUT_REACHED
| MHD_REQUEST_TERMINATED_DAEMON_SHUTDOWN
| MHD_REQUEST_TERMINATED_CLIENT_ABORT.

(** What a handler step does to the outside: calls into the TLS library
    and the application's termination callback. *)
Inductive event : Type :=
| handshake_called
| bye_called
| terminated (code : MHD_RequestTerminationCode).

(** The fields of [struct MHD_Connection] the adapter reads and writes;
    [connection_timeout] is [connection->daemon->connection_timeout], an
    [unsigned int]; [last_activity] is a [time_t]; [socket_fd] is -1 once
    the socket is gone. *)
Record MHD_Connection (session : Type) : Type := mkConnection {
  socket_fd : Z;
  state : MHD_CONNECTION_STATE;
  last_activity : Z;
  connection_timeout : Z;
  tls_session : session
}.
Arguments mkConnection {session}.
Arguments socket_fd {session}.
Arguments state {session}.
Arguments last_activity {session}.
Arguments connection_timeout {session}.
Arguments tls_session {session}.

(** A connection together with the record of what was done for it. *)
Record world (session : Type) : Type := mkWorld {
  connection : MHD_Connection session;
  trace : list event
}.
Arguments mkWorld {session}.
Arguments connection {session}.
Arguments trace {session}.

(** The TLS library, as far as the adapter uses it: the handshake yields a
    result code and moves the session on; [gnutls_bye] moves the session
    on and its result is dropped. *)
Class TlsLibrary (session : Type) : Type := {
  gnutls_handshake : session -> Z * session;
  gnutls_bye : session -> session
}.

(** The handlers of the plain HTTP state machine ([connection.c]) the
    adapter hands over to; each takes the clock reading it would get from
    [time (NULL)]. *)
Class PlainHandlers (session : Type) : Type := {
  MHD_connection_handle_read : Z -> world session -> Z * world session;
  MHD_connection_handle_write : Z -> world session -> Z * world session;
  MHD_connection_handle_idle : Z -> world session -> Z * world session
}.

Section Adapter.
Context {session : Type} `{TlsLibrary session} `{PlainHandlers session}.

Definition set_state (w : world session) (s : MHD_CONNECTION_STATE)
  : world session :=
  let c := connection w in
  mkWorld (mkConnection (socket_fd c) s (last_activity c)
                        (connection_timeout c) (tls_session c))
          (trace w).

Definition set_socket_fd (w : world session) (fd : Z) : world session :=
  let c := connection w in
  mkWorld (mkConnection fd (state c) (last_activity c)
                        (connection_timeout c) (tls_session c))
          (trace w).

Definition set_last_activity (w : world session) (t : Z) : world session :=
  let c := connection w in
  mkWorld (mkConnection (socket_fd c) (state c) t
                        (connection_timeout c) (tls_session c))
          (trace w).

Definition set_tls_session (w : world session) (s : session)
  : world session :=
  let c := connection w in
  mkWorld (mkConnection (socket_fd c) (state c) (last_activity c)
                        (connection_timeout c) s)
          (trace w).

Definition emit (w : world session) (e : event) : world session :=
  mkWorld (connection w) (trace w ++ [e]).

(** Modelled from the spec: [MHD_connection_close] of [connection.c],
    which is not part of this tree. Section 4.4 (CLOSED handling) has it
    invoke the termination callback with the termination code and close
    the socket, section 3 has a closed socket handle replaced by the
    sentinel, and section 4.5 has a failed connection move to CLOSED. *)
Definition MHD_connection_close (code : MHD_RequestTerminationCode)
  (w : world session) : world session :=
  emit (set_state (set_socket_fd w (-1)) MHD_CONNECTION_CLOSED)
       (terminated code).

(** [gnutls_bye (connection->tls_session, GNUTLS_SHUT_RDWR)] *)
Definition call_gnutls_bye (w : world session) : world session :=
  emit (set_tls_session w (gnutls_bye (tls_session (connection w))))
       bye_called.

(** [gnutls_handshake (connection->tls_session)] *)
Definition call_gnutls_handshake (w : world session) : Z * world session :=
  let (ret, s) := gnutls_handshake (tls_session (connection w)) in
  (ret, emit (set_tls_session w s) handshake_called).

Definition MHD_tls_connection_close (code : MHD_RequestTerminationCode)
  (w : world session) : world session :=
  MHD_connection_close code (call_gnutls_bye w).

(** The [switch] at the end of [MHD_tls_connection_handle_idle]. *)
Definition idle_switch (now : Z) (w : world session) : Z * world session :=
  match state (connection w) with
  | MHD_TLS_CONNECTION_INIT => (MHD_YES, w)
  | MHD_CONNECTION_CLOSED =>
      if negb (socket_fd (connection w) =? -1)
      then (MHD_NO,
            MHD_tls_connection_close MHD_REQUEST_TERMINATED_COMPLETED_OK w)
      else (MHD_NO, w)
  | _ => MHD_connection_handle_idle now w
  end.

(** [now] is what [time (NULL)] returns during the step. The difference
    is taken in [time_t], to which the [unsigned int] timeout converts
    unchanged. *)
Definition MHD_tls_connection_handle_idle (now : Z) (w : world session)
  : Z * world session :=
  let timeout := connection_timeout (connection w) in
  if negb (socket_fd (connection w) =? -1)
     && negb (timeout =? 0)
     && (last_activity (connection w) <? wrap_time (now - timeout))
  then (MHD_NO,
        MHD_tls_connection_close MHD_REQUEST_TERMINATED_TIMEOUT_REACHED w)
  else idle_switch now w.

(** [now] is what [time (NULL)] returns during the step. *)
Definition MHD_tls_connection_handle_read (now : Z) (w : world session)
  : Z * world session :=
  let w := set_last_activity w now in
  match state (connection w) with
  | MHD_TLS_CONNECTION_INIT =>
      let (ret, w) := call_gnutls_handshake w in
      if ret =? GNUTLS_E_SUCCESS
      then (MHD_YES, set_state w MHD_CONNECTION_INIT)
      else if (ret =? GNUTLS_E_AGAIN) || (ret =? GNUTLS_E_INTERRUPTED)
      then (MHD_YES, w)
      else (MHD_NO,
            MHD_tls_connection_close MHD_REQUEST_TERMINATED_WITH_ERROR w)
  | _ => MHD_connection_handle_read now w
  end.

Definition MHD_tls_connection_handle_write (now : Z) (w : world session)
  : Z * world session :=
  let w := set_last_activity w now in
  match state (connection w) with
  | MHD_TLS_CONNECTION_INIT =>
      let (ret, w) := call_gnutls_handshake w in
      if ret =? GNUTLS_E_SUCCESS
      then (MHD_YES, set_state w MHD_CONNECTION_INIT)
      else if (ret =? GNUTLS_E_AGAIN) || (ret =? GNUTLS_E_INTERRUPTED)
      then (MHD_YES, w)
      else (MHD_NO,
            MHD_tls_connection_close MHD_REQUEST_TERMINATED_WITH_ERROR w)
  | _ => MHD_connection_handle_write now w
  end.

(** [MHD_set_https_callbacks]: the three handlers a TLS connection is
    driven through. *)
Inductive handler : Type := read_handler | write_handler | idle_handler.

Definition MHD_set_https_callbacks (h : handler)
  : Z -> world session -> Z * world session :=
  match h with
  | read_handler => MHD_tls_connection_handle_read
  | write_handler => MHD_tls_connection_handle_write
  | idle_handler => MHD_tls_connection_handle_idle
  end.

(** The event loop runs handlers one after the other, each at its own
    clock reading. *)
Fixpoint run (steps : list (handler * Z)) (w : world session)
  : world session :=
  match steps with
  | [] => w
  | (h, now) :: rest => run rest (snd (MHD_set_https_callbacks h now w))
  end.

(** How often the termination callback has been invoked. *)
Fixpoint terminations (t : list event) : nat :=
  match t with
  | [] => O
  | terminated _ :: rest => S (terminations rest)
  | _ :: rest => terminations rest
  end.

End Adapter.

End ConnectionHttps.

(** * The vocabulary of the specification, for connections *)

Module ConnectionSpec.
Import CInt ConnectionHttps.

(** A handler that does nothing to a connection once it is CLOSED: the
    state stays, the socket handle stays, nothing is called. Section 4.4
    has CLOSED as the terminal state of the HTTP state machine. *)
Definition leaves_closed_alone {session : Type}
  (f : Z -> world session -> Z * world session) : Prop :=
  forall now w,
    state (connection w) = MHD_CONNECTION_CLOSED ->
    state (connection (snd (f now w))) = MHD_CONNECTION_CLOSED /\
    socket_fd (connection (snd (f now w))) = socket_fd (connection w) /\
    trace (snd (f now w)) = trace w.

(** A TLS peer that plays a script: the session is the list of results
    the coming handshake calls will get, and a handshake with nothing left
    to play asks to be called again. *)
Definition scripted_tls : TlsLibrary (list Z) :=
  {| gnutls_handshake :=
       fun s => match s with
                | [] => (GNUTLS_E_AGAIN, [])
                | ret :: rest => (ret, rest)
                end;
     gnutls_bye := fun s => s |}.

(** A stand-in for the HTTP state machine, enough to run the adapter: the
    I/O handlers note the time of the activity, the idle handler does
    nothing, and all of them ask to go on. *)
Definition quiet_handlers : PlainHandlers (list Z) :=
  {| MHD_connection_handle_read :=
       fun now w => (MHD_YES, set_last_activity w now);
     MHD_connection_handle_write :=
       fun now w => (MHD_YES, set_last_activity w now);
     MHD_connection_handle_idle := fun _ w => (MHD_YES, w) |}.

(** A connection on socket 5, last active at time 50, in a given state,
    with a given timeout and handshake script. *)
Definition example_world (s : MHD_CONNECTION_STATE) (timeout : Z)
  (script : list Z) : world (list Z) :=
  mkWorld (mkConnection 5 s 50 timeout script) [].

(** Modelled from the spec: what a plain read or write handler of
    [connection.c], which is not part of this tree, may do with a CLOSED
    connection. Section 4.4 has CLOSED as the terminal state, and has the
    handling of a CLOSED connection report the termination once and close
    the socket; section 3 has a closed socket handle replaced by the
    sentinel. So the handler leaves the connection CLOSED, and either it
    reports nothing and leaves the socket handle as it is, or it finds
    the socket open, closes it and reports one termination. *)
Definition closes_only_open_sockets {session : Type}
  (f : Z -> world session -> Z * world session) : Prop :=
  forall now w,
    state (connection w) = MHD_CONNECTION_CLOSED ->
    state (connection (snd (f now w))) = MHD_CONNECTION_CLOSED /\
    (socket_fd (connection (snd (f now w))) = socket_fd (connection w) /\
     terminations (trace (snd (f now w))) = terminations (trace w)
     \/
     socket_fd (connection w) <> -1 /\
     socket_fd (connection (snd (f now w))) = -1 /\
     terminations (trace (snd (f now w))) = S (terminations (trace w))).

(** Another stand-in for the HTTP state machine: its I/O handlers note
    the time and, like the idle handler of the adapter, close a CLOSED
    connection whose socket is still open. *)
Definition guarded_io (now : Z) (w : world (list Z))
  : Z * world (list Z) :=
  let w := set_last_activity w now in
  match state (connection w) with
  | MHD_CONNECTION_CLOSED =>
      if negb (socket_fd (connection w) =? -1)
      then (MHD_NO,
            MHD_connection_close MHD_REQUEST_TERMINATED_COMPLETED_OK w)
      else (MHD_NO, w)
  | _ => (MHD_YES, w)
  end.

Definition guarded_handlers : PlainHandlers (list Z) :=
  {| MHD_connection_handle_read := guarded_io;
     MHD_connection_handle_write := guarded_io;
     MHD_connection_handle_idle := fun _ w => (MHD_YES, w) |}.

End ConnectionSpec.

(** * Runs of the TLS adapter *)

Module ConnectionRuns.
Import CInt ConnectionHttps.

(** The next [n] handshake calls on session [s] all report again or
    interrupted. *)
Fixpoint keeps_asking {session : Type} `{TlsLibrary session}
  (n : nat) (s : session) : Prop :=
  match n with
  | O => True
  | S n' =>
      (fst (gnutls_handshake s) = GNUTLS_E_AGAIN \/
       fst (gnutls_handshake s) = GNUTLS_E_INTERRUPTED) /\
      keeps_asking n' (snd (gnutls_handshake s))
  end.

(** Steps of the event loop that are all readable or writable events. *)
Definition io_only (steps : list (handler * Z)) : Prop :=
  Forall (fun st => fst st <> idle_handler) steps.

(** The same steps taken through the plain handlers alone, each I/O step
    on the connection with its activity time set to the clock. *)
Fixpoint plain_run {session : Type} `{PlainHandlers session}
  (steps : list (handler * Z)) (w : world session) : world session :=
  match steps with
  | [] => w
  | (h, now) :: rest =>
      plain_run rest
        (snd (match h with
              | read_handler =>
                  MHD_connection_handle_read now (set_last_activity w now)
              | write_handler =>
                  MHD_connection_handle_write now (set_last_activity w now)
              | idle_handler => MHD_connection_handle_idle now w
              end))
  end.

(** A plain handler that does not put a connection back into the
    handshake state. *)
Definition stays_established {session : Type}
  (f : Z -> world session -> Z * world session) : Prop :=
  forall now w,
    state (connection w) <> MHD_TLS_CONNECTION_INIT ->
    state (connection (snd (f now w))) <> MHD_TLS_CONNECTION_INIT.

End ConnectionRuns.

(** * Helpers of the test programs *)

Module TestSupport.
Import CInt.

(** [uint16_t] and [size_t] arithmetic. *)
Definition wrap_uint16 (x : Z) : Z := x mod 2 ^ 16.
Definition wrap_size (x : Z) : Z := x mod 2 ^ 64.

(** [get_port] of [testspdy/common.c]. [tv_usec] is the microsecond field
    [gettimeofday] fills in, a [long]; the sum, the remainder (C's [%]
    truncates, as [Z.rem] does) and the addition are done in [long], where
    these values cannot overflow, and the result is cut down to
    [uint16_t]. The port is also printed. *)
Definition get_port (tv_usec : Z) (min : Z) : Z :=
  let min := if 2 >? min then 2 else min in
  wrap_uint16 (min + Z.rem (tv_usec + 10) (2 ^ 16 - min)).

(** [struct CBC] of [mhds_session_info_test.c]: the memory [buf] points
    to, the fill position and the capacity. *)
Record CBC : Type := mkCBC {
  buf : list ascii;
  pos : Z;
  size : Z
}.

(** [copyBuffer]: the write callback handed to libcurl. [ptr] is the
    memory libcurl passes. [None] where the [memcpy] would read past
    [ptr] or write past [buf], which C leaves undefined. *)
Definition copyBuffer (ptr : list ascii) (size nmemb : Z) (cbc : CBC)
  : option (Z * CBC) :=
  let n := wrap_size (size * nmemb) in
  if wrap_size (pos cbc + n) >? TestSupport.size cbc then Some (0, cbc)
  else if (Z.of_nat (List.length ptr) <? n)
          || (Z.of_nat (List.length (buf cbc)) <? pos cbc + n)
  then None
  else
    Some (n,
          mkCBC (firstn (Z.to_nat (pos cbc)) (buf cbc)
                 ++ firstn (Z.to_nat n) ptr
                 ++ skipn (Z.to_nat (pos cbc + n)) (buf cbc))
                (wrap_size (pos cbc + n))
                (TestSupport.size cbc)).

(** What has been received so far. *)
Definition received (cbc : CBC) : list ascii :=
  firstn (Z.to_nat (pos cbc)) (buf cbc).

(** A collector the test could have set up: its position is inside its
    capacity, and the capacity is that of the memory. *)
Definition well_formed (cbc : CBC) : Prop :=
  0 <= pos cbc <= size cbc /\ size cbc = Z.of_nat (List.length (buf cbc)).

Definition example_cbc : CBC :=
  mkCBC (list_ascii_of_string "HTTP........") 4 12.

End TestSupport.

(** * Facts about the string primitives *)

Module CStringFacts.
Import CString.

Lemma strcmp_refl (a : cstring) : strcmp a a = 0.
Proof.
  induction a as [|x a IH]; simpl; [reflexivity|].
  rewrite Nat.eqb_refl. exact IH.
Qed.

(** [strcmp] is 0 on equal byte sequences and on no others. *)
Lemma strcmp_eq (a b : cstring) : strcmp a b = 0 <-> a = b.
Proof.
  split; [|intros ->; apply strcmp_refl].
  revert b; induction a as [|x a IH]; intros [|y b]; simpl;
    try discriminate; [reflexivity|].
  destruct (Nat.eqb_spec (nat_of_ascii x) (nat_of_ascii y)) as [E|_].
  - intros Hc. apply IH in Hc.
    apply (f_equal ascii_of_nat) in E.
    rewrite !ascii_nat_embedding in E. congruence.
  - destruct (nat_of_ascii x <? nat_of_ascii y)%nat; discriminate.
Qed.

Lemma strcmp_eqb (a b : cstring) : (0 =? strcmp a b) = String.eqb a b.
Proof.
  destruct (String.eqb_spec a b) as [->|N].
  - now rewrite strcmp_refl.
  - apply Z.eqb_neq. intros E. apply N, strcmp_eq. now symmetry.
Qed.

(** Searching for a one-byte needle is asking whether the byte occurs. *)
Lemma strstr_lit (c : ascii) (s : cstring) :
  Response.found (strstr s (lit c)) = mem c s.
Proof.
  induction s as [|x s IH]; simpl; [reflexivity|].
  destruct (ascii_dec c x) as [->|N].
  - rewrite Ascii.eqb_refl. now destruct s.
  - apply Ascii.eqb_neq in N. rewrite N, <- IH.
    now destruct (strstr s (lit c)).
Qed.

Lemma mem_In (c : ascii) (s : cstring) :
  mem c s = true <-> In c (list_ascii_of_string s).
Proof.
  induction s as [|x s IH]; simpl.
  - split; [discriminate|tauto].
  - rewrite orb_true_iff, IH, Ascii.eqb_eq. split; intros [E|E]; auto.
Qed.

Lemma strlen_zero (s : cstring) : (strlen s =? 0) = true <-> s = EmptyString.
Proof.
  unfold strlen. rewrite Z.eqb_eq. destruct s; simpl; split;
    try reflexivity; try discriminate; lia.
Qed.

End CStringFacts.

(** * Properties of the response operations *)

Module ResponseFacts.
Import CInt CString Response ResponseSpec CStringFacts.

Lemma bad_string_check (s : cstring) :
  (strlen s =? 0) || found (strstr s (lit TAB))
  || found (strstr s (lit CR)) || found (strstr s (lit LF)) = true
  <-> bad_string (Some s).
Proof.
  unfold bad_string, contains.
  rewrite !orb_true_iff, !strstr_lit, !mem_In, strlen_zero. tauto.
Qed.

(** The argument check of [MHD_add_response_header], read as one
    condition on each string. *)
Lemma add_check_split (h c : cstring) :
  (strlen h =? 0) || (strlen c =? 0)
  || found (strstr h (lit TAB)) || found (strstr h (lit CR))
  || found (strstr h (lit LF)) || found (strstr c (lit TAB))
  || found (strstr c (lit CR)) || found (strstr c (lit LF)) = true
  <-> bad_string (Some h) \/ bad_string (Some c).
Proof.
  rewrite <- !bad_string_check, !orb_true_iff. tauto.
Qed.

(** C8. [MHD_add_response_header] answers [MHD_NO] and leaves the response
    as it is when the response, the name or the content is NULL, when
    either string is empty, or when either holds a tab, a carriage return
    or a line feed; on all other arguments it answers [MHD_YES] and the
    response it leaves has exactly one entry more, in front of the ones it
    had: an entry of kind header carrying the two strings. No other field
    of the response changes. *)
Theorem C8_add_response_header_checks
  (response : option MHD_Response) (hdr content : option cstring) :
  (rejected response hdr content ->
   MHD_add_response_header response hdr content = (MHD_NO, response))
  /\
  (~ rejected response hdr content ->
   exists r h c r',
     response = Some r /\ hdr = Some h /\ content = Some c /\
     MHD_add_response_header response hdr content = (MHD_YES, Some r') /\
     first_header r' = mkHeader h c MHD_HEADER_KIND :: first_header r /\
     List.length (first_header r') = S (List.length (first_header r)) /\
     data r' = data r /\ crc_cls r' = crc_cls r /\ crc r' = crc r /\
     crfc r' = crfc r /\ reference_count r' = reference_count r /\
     total_size r' = total_size r /\ data_size r' = data_size r).
Proof.
  unfold rejected.
  destruct response as [r|], hdr as [h|], content as [c|]; simpl;
    try (split; [reflexivity | intros N; exfalso; apply N; tauto]).
  pose proof (add_check_split h c) as Hchk. simpl in Hchk.
  destruct (_ || found (strstr c (lit LF))) eqn:E.
  - split; [reflexivity|].
    intros N. exfalso. apply N. right. apply Hchk. reflexivity.
  - split.
    + intros [R|R]; [discriminate|].
      apply Hchk in R. discriminate.
    + intros _. exists r, h, c. eexists.
      do 4 (split; [reflexivity|]).
      destruct r; cbn. repeat (split; [reflexivity|]). reflexivity.
Qed.

(** A header name with a tab in it is turned down; a clean pair goes on
    top of the list. *)
Example add_rejects_tab :
  MHD_add_response_header (Some example_response)
    (Some (String "X" (String TAB "Y"))) (Some "1"%string)
  = (MHD_NO, Some example_response).
Proof. reflexivity. Qed.

Example add_accepts :
  MHD_add_response_header (Some three_headers)
    (Some "Server"%string) (Some "mhd"%string)
  = (MHD_YES,
     Some (set_first_header three_headers
             (mkHeader "Server" "mhd" MHD_HEADER_KIND
                :: first_header three_headers)))%string.
Proof. reflexivity. Qed.

Lemma matches_spec (h c : cstring) (e : MHD_HTTP_Header) :
  matches h c e = true <-> is_entry h c e.
Proof.
  unfold matches, is_entry.
  rewrite !strcmp_eqb, andb_true_iff, !String.eqb_eq. intuition congruence.
Qed.

Lemma del_loop_found (h c : cstring) (l1 l2 : list MHD_HTTP_Header)
  (e : MHD_HTTP_Header) :
  (forall x, In x l1 -> ~ is_entry h c x) ->
  is_entry h c e ->
  del_loop h c (l1 ++ e :: l2) =
    Some (l1 ++ l2,
          [free_string (header e); free_string (value e); free_node e]).
Proof.
  intros Hpre He. induction l1 as [|x l1 IH]; simpl.
  - apply matches_spec in He. now rewrite He.
  - destruct (matches h c x) eqn:Mx.
    + apply matches_spec in Mx. exfalso. apply (Hpre x); simpl; auto.
    + rewrite IH; [reflexivity|].
      intros y Hy. apply Hpre. simpl; auto.
Qed.

Lemma del_loop_absent (h c : cstring) (l : list MHD_HTTP_Header) :
  (forall x, In x l -> ~ is_entry h c x) -> del_loop h c l = None.
Proof.
  induction l as [|x l IH]; simpl; intros Hall; [reflexivity|].
  destruct (matches h c x) eqn:Mx.
  - apply matches_spec in Mx. exfalso. apply (Hall x); auto.
  - rewrite IH; [reflexivity|]. intros y Hy. apply Hall. auto.
Qed.

(** C6. [MHD_del_response_header] unlinks the first entry whose name and
    value both equal the arguments byte for byte and answers [MHD_YES]:
    the header list it leaves is the entries before that one followed by
    the entries after it, as they were and in their order, and no other
    field of the response changes; the two strings and the node of the
    entry are released. When no entry equals the arguments (or an argument
    is NULL) it answers [MHD_NO] and the response is unchanged. *)
Theorem C6_del_response_header_first_exact_match
  (response : MHD_Response) (hdr content : option cstring) :
  (forall h c l1 e l2,
     hdr = Some h -> content = Some c ->
     first_header response = l1 ++ e :: l2 ->
     (forall x, In x l1 -> ~ (header x = h /\ value x = c)) ->
     header e = h -> value e = c ->
     exists r',
       MHD_del_response_header response hdr content =
         (MHD_YES, r',
          [free_string (header e); free_string (value e); free_node e]) /\
       first_header r' = l1 ++ l2 /\
       data r' = data response /\ crc_cls r' = crc_cls response /\
       crc r' = crc response /\ crfc r' = crfc response /\
       reference_count r' = reference_count response /\
       total_size r' = total_size response /\
       data_size r' = data_size response)
  /\
  ((forall h c x,
      hdr = Some h -> content = Some c ->
      In x (first_header response) -> ~ (header x = h /\ value x = c)) ->
   MHD_del_response_header response hdr content = (MHD_NO, response, [])).
Proof.
  split.
  - intros h c l1 e l2 -> -> Hl Hpre Hh Hv.
    unfold MHD_del_response_header.
    rewrite Hl, (del_loop_found h c l1 l2 e Hpre (conj Hh Hv)).
    eexists. split; [reflexivity|].
    destruct response; cbn. repeat (split; [reflexivity|]). reflexivity.
  - intros Hnone. unfold MHD_del_response_header.
    destruct hdr as [h|], content as [c|]; try reflexivity.
    rewrite del_loop_absent; [reflexivity|].
    intros x Hx. now apply (Hnone h c x).
Qed.

(** Of two equal entries the first goes; a name in another case matches
    nothing. *)
Example del_first_of_two :
  (MHD_del_response_header
     (set_first_header example_response
        [mkHeader "b" "2" MHD_HEADER_KIND; mkHeader "a" "1" MHD_HEADER_KIND;
         mkHeader "c" "3" MHD_COOKIE_KIND; mkHeader "a" "1" MHD_FOOTER_KIND])
     (Some "a") (Some "1")
   = (MHD_YES,
      set_first_header example_response
        [mkHeader "b" "2" MHD_HEADER_KIND;
         mkHeader "c" "3" MHD_COOKIE_KIND; mkHeader "a" "1" MHD_FOOTER_KIND],
      [free_string "a"; free_string "1";
       free_node (mkHeader "a" "1" MHD_HEADER_KIND)]))%string.
Proof. reflexivity. Qed.

Example del_is_case_sensitive :
  MHD_del_response_header three_headers (Some "A"%string) (Some "1"%string)
  = (MHD_NO, three_headers, []).
Proof. reflexivity. Qed.

Lemma wrap_int_small (x : Z) : - 2 ^ 31 <= x <= INT_MAX -> wrap_int x = x.
Proof.
  unfold wrap_int, INT_MAX. intros Hx.
  rewrite Z.mod_small; lia.
Qed.

Lemma get_loop_count {S : Type} (cls : S) (pos : list MHD_HTTP_Header)
  (n : Z) :
  0 <= n -> n + Z.of_nat (List.length pos) <= INT_MAX ->
  get_loop None cls n pos = (n + Z.of_nat (List.length pos), cls).
Proof.
  revert n. induction pos as [|p next IH]; intros n Hn Hmax.
  - simpl. f_equal. lia.
  - cbn [get_loop]. cbn [List.length] in Hmax.
    rewrite wrap_int_small by (unfold INT_MAX in *; lia).
    rewrite IH by lia. f_equal. cbn [List.length]. lia.
Qed.

Lemma get_loop_iterated {S : Type} (it : MHD_KeyValueIterator S)
  (pos : list MHD_HTTP_Header) (cls : S) (n : Z) :
  0 <= n -> n + Z.of_nat (List.length pos) <= INT_MAX ->
  exists visited rest,
    pos = visited ++ rest /\
    iterated it cls pos visited (snd (get_loop (Some it) cls n pos)) /\
    fst (get_loop (Some it) cls n pos) = n + Z.of_nat (List.length visited).
Proof.
  revert cls n. induction pos as [|p next IH]; intros cls n Hn Hmax.
  - exists [], []. simpl. repeat split; [constructor | lia].
  - cbn [get_loop]. cbn [List.length] in Hmax.
    rewrite wrap_int_small by (unfold INT_MAX in *; lia).
    destruct (it cls (kind p) (header p) (value p)) as [ret cls'] eqn:Hcall.
    destruct (Z.eqb_spec ret MHD_YES) as [->|Hne].
    + destruct (IH cls' (n + 1)) as (visited & rest & Hsplit & Hit & Hcnt);
        [lia | lia |].
      exists (p :: visited), rest. split; [|split].
      * simpl. now rewrite Hsplit.
      * eapply iterated_next; eassumption.
      * rewrite Hcnt. cbn [List.length]. lia.
    + exists [p], next. split; [|split].
      * reflexivity.
      * eapply iterated_stop; eassumption.
      * simpl. lia.
Qed.

(** C10. With a NULL iterator [MHD_get_response_headers] calls nothing and
    returns the number of headers in the list. With an iterator it calls
    it on the headers in list order until it answers something other than
    [MHD_YES], and returns how many headers it visited, the one it stopped
    on included. The count is an [int], so the list is taken to have at
    most [INT_MAX] entries. *)
Theorem C10_get_response_headers_count (response : MHD_Response)
  (Hlen : Z.of_nat (List.length (first_header response)) <= INT_MAX) :
  (forall (S : Type) (cls : S),
     MHD_get_response_headers response None cls =
       (Z.of_nat (List.length (first_header response)), cls))
  /\
  (forall (S : Type) (it : MHD_KeyValueIterator S) (cls : S),
     exists visited rest,
       first_header response = visited ++ rest /\
       iterated it cls (first_header response) visited
         (snd (MHD_get_response_headers response (Some it) cls)) /\
       fst (MHD_get_response_headers response (Some it) cls) =
         Z.of_nat (List.length visited)).
Proof.
  split.
  - intros S cls. unfold MHD_get_response_headers.
    rewrite get_loop_count by lia. reflexivity.
  - intros S it cls. unfold MHD_get_response_headers.
    destruct (get_loop_iterated it (first_header response) cls 0)
      as (visited & rest & Hsplit & Hit & Hcnt); [lia | lia |].
    exists visited, rest. repeat split; [exact Hsplit | exact Hit |].
    rewrite Hcnt. lia.
Qed.

(** An iterator that gives up on the second header sees two of three. *)
Lemma C10_get_response_headers_count_witness :
  Z.of_nat (List.length (first_header three_headers)) <= INT_MAX
  /\ MHD_get_response_headers three_headers None tt = (3, tt)
  /\ MHD_get_response_headers three_headers (Some stop_at_second) O
     = (2, 2%nat).
Proof.
  split; [vm_compute; discriminate|].
  split.
  - apply (proj1 (C10_get_response_headers_count three_headers
                    ltac:(vm_compute; discriminate)) unit tt).
  - reflexivity.
Defined.

Lemma add_cases (r : MHD_Response) (h c : cstring) :
  MHD_add_response_header (Some r) (Some h) (Some c) = (MHD_NO, Some r)
  \/ MHD_add_response_header (Some r) (Some h) (Some c) =
       (MHD_YES,
        Some (set_first_header r
                (mkHeader h c MHD_HEADER_KIND :: first_header r))).
Proof.
  unfold MHD_add_response_header, strdup.
  destruct (_ || found (strstr c (lit LF))); [left | right]; reflexivity.
Qed.

(** Calls that all succeed stack their entries on the list, the newest on
    top. *)
Lemma add_all_stacks (pairs : list (cstring * cstring)) (r : MHD_Response) :
  Forall (eq MHD_YES) (fst (add_all (Some r) pairs)) ->
  exists r',
    snd (add_all (Some r) pairs) = Some r' /\
    first_header r' = rev (map node_of pairs) ++ first_header r.
Proof.
  revert r. induction pairs as [|[h c] rest IH]; intros r Hall.
  - exists r. split; reflexivity.
  - cbn [add_all] in *.
    destruct (add_cases r h c) as [E|E]; rewrite E in *.
    + destruct (add_all (Some r) rest) as [rets final]. cbn in Hall.
      inversion Hall as [|? ? Habs]; subst. discriminate Habs.
    + specialize (IH (set_first_header r
                        (mkHeader h c MHD_HEADER_KIND :: first_header r))).
      destruct (add_all _ rest) as [rets final]. cbn in Hall |- *.
      inversion Hall as [|? ? _ Hrest]; subst.
      destruct (IH Hrest) as (r' & Hfin & Hlist).
      exists r'. split; [exact Hfin|].
      rewrite Hlist. cbn [map rev set_first_header first_header].
      rewrite <- app_assoc. reflexivity.
Qed.

Lemma collect_loop (l : list MHD_HTTP_Header)
  (seen : list (cstring * cstring)) (n : Z) :
  snd (get_loop (Some collect) seen n l) = seen ++ map pair_of l.
Proof.
  revert seen n. induction l as [|p next IH]; intros seen n.
  - simpl. now rewrite app_nil_r.
  - cbn [get_loop collect]. rewrite Z.eqb_refl, IH.
    rewrite <- app_assoc. reflexivity.
Qed.

Lemma headers_seen_list (r : MHD_Response) :
  headers_seen r = map pair_of (first_header r).
Proof.
  unfold headers_seen, MHD_get_response_headers. now rewrite collect_loop.
Qed.

(** Both constructors hand out fresh responses. *)
Lemma constructors_fresh (r : MHD_Response) :
  (exists mutex_init size crc crc_cls crfc,
     MHD_create_response_from_callback mutex_init size crc crc_cls crfc
       = Some r)
  \/
  (exists h mutex_init size data must_free must_copy h',
     MHD_create_response_from_data h mutex_init size data must_free must_copy
       = Some (Some r, h')) ->
  fresh r.
Proof.
  unfold fresh. intros [(mx & size & crc & cls & crfc & E)
                       | (h & mx & size & data & mf & mc & h' & E)].
  - unfold MHD_create_response_from_callback in E.
    destruct crc; [|discriminate].
    destruct (negb (mx =? 0)); [discriminate|].
    now injection E as <-.
  - unfold MHD_create_response_from_data in E.
    destruct data as [p|], (0 <? size)%N, (negb (mx =? 0)),
      (truthy mc); cbn [andb] in E; try discriminate;
      try (now injection E as <- _);
      destruct (malloc h (N.to_nat size)) as [tmp h1];
      destruct (memcpy h1 tmp _ (N.to_nat size)); try discriminate;
      now injection E as <- _.
Qed.

(** C3, as amended. After a run of successful
    [MHD_add_response_header] calls on a fresh response, iterating with
    [MHD_get_response_headers] visits exactly the added (name, value)
    pairs, byte for byte, newest first: the header added last is visited
    first. *)
Theorem C3_headers_visited_newest_first
  (r : MHD_Response) (pairs : list (cstring * cstring)) :
  fresh r ->
  Forall (eq MHD_YES) (fst (add_all (Some r) pairs)) ->
  exists r',
    snd (add_all (Some r) pairs) = Some r' /\
    headers_seen r' = rev pairs.
Proof.
  intros Hfresh Hall.
  destruct (add_all_stacks pairs r Hall) as (r' & Hfin & Hlist).
  exists r'. split; [exact Hfin|].
  rewrite headers_seen_list, Hlist, Hfresh, app_nil_r.
  rewrite map_rev, map_map. f_equal.
  rewrite <- (map_id pairs) at 2.
  apply map_ext. now intros [h c].
Qed.

Lemma C3_headers_visited_newest_first_witness :
  fresh example_response /\
  Forall (eq MHD_YES) (fst (add_all (Some example_response) example_pairs)) /\
  exists r',
    snd (add_all (Some example_response) example_pairs) = Some r' /\
    headers_seen r' = rev example_pairs.
Proof.
  split; [reflexivity|].
  split; [repeat constructor|].
  apply (C3_headers_visited_newest_first example_response example_pairs).
  - reflexivity.
  - repeat constructor.
Defined.

(** C3, as stated, fails: Content-Type is added first and Server second,
    and the iteration shows Server first. *)
Lemma C3_insertion_order_counterexample :
  fresh example_response /\
  Forall (eq MHD_YES) (fst (add_all (Some example_response) example_pairs)) /\
  exists r',
    snd (add_all (Some example_response) example_pairs) = Some r' /\
    headers_seen r' =
      [("Server", "mhd"); ("Content-Type", "text/plain")]%string /\
    headers_seen r' <> example_pairs.
Proof.
  split; [reflexivity|].
  split; [repeat constructor|].
  eexists. split; [reflexivity|].
  split; [reflexivity|].
  vm_compute. discriminate.
Qed.

Lemma wrap_uint_small (x : Z) : 0 <= x <= UINT_MAX -> wrap_uint x = x.
Proof.
  unfold wrap_uint, UINT_MAX. intros Hx. apply Z.mod_small. lia.
Qed.

(** Dropping one of [n >= 1] references. *)
Lemma destroy_counted (r : MHD_Response) :
  1 <= reference_count r <= UINT_MAX ->
  MHD_destroy_response (Some r) =
    if reference_count r =? 1
    then (None, free_headers (first_header r) ++ [free_response])
    else (Some (set_reference_count r (reference_count r - 1)), []).
Proof.
  intros Hrc. unfold MHD_destroy_response.
  rewrite wrap_uint_small by lia.
  destruct (Z.eqb_spec (reference_count r) 1) as [E|N].
  - rewrite E. reflexivity.
  - destruct (Z.eqb_spec 0 (reference_count r - 1)); [lia | reflexivity].
Qed.

Lemma increment_counted (r : MHD_Response) :
  0 <= reference_count r < UINT_MAX ->
  MHD_increment_response_rc r =
    set_reference_count r (reference_count r + 1).
Proof.
  intros Hrc. unfold MHD_increment_response_rc.
  now rewrite wrap_uint_small by lia.
Qed.

(** One operation keeps the books balanced, as long as the count has room
    for one more holder. *)
Lemma step_balanced (o : op) (st st' : shared) :
  balanced st ->
  Z.of_nat (holders st) + 1 < UINT_MAX ->
  step o st = Some st' ->
  balanced st' /\ (holders st' <= S (holders st))%nat.
Proof.
  unfold balanced. intros Hb Hroom Hstep.
  destruct st as [[r|] k a]; cbn [cell holders app_holds] in *.
  - destruct Hb as [Hrc Hpos].
    assert (Hrange : 1 <= reference_count r < UINT_MAX)
      by (destruct a; lia).
    destruct o; cbn [step cell holders app_holds] in Hstep.
    + rewrite increment_counted in Hstep by lia.
      injection Hstep as <-.
      cbn [cell holders app_holds reference_count set_reference_count].
      split; [split; lia | lia].
    + destruct k as [|k]; [discriminate|].
      rewrite destroy_counted in Hstep by lia.
      destruct (Z.eqb_spec (reference_count r) 1) as [E|N];
        injection Hstep as <-;
        cbn [fst cell holders app_holds reference_count set_reference_count].
      * split; [|lia]. destruct a; lia.
      * split; [split; lia | lia].
    + destruct a; [|discriminate].
      rewrite destroy_counted in Hstep by lia.
      destruct (Z.eqb_spec (reference_count r) 1) as [E|N];
        injection Hstep as <-;
        cbn [fst cell holders app_holds reference_count set_reference_count].
      * split; [split; [lia | reflexivity] | lia].
      * split; [split; lia | lia].
  - destruct Hb as [-> ->]. destruct o; discriminate.
Qed.

Lemma steps_balanced (ops : list op) (st st' : shared) :
  balanced st ->
  Z.of_nat (holders st) + Z.of_nat (List.length ops) < UINT_MAX ->
  steps ops st = Some st' ->
  balanced st'.
Proof.
  revert st. induction ops as [|o rest IH]; intros st Hb Hroom Hrun.
  - injection Hrun as <-. exact Hb.
  - cbn [steps] in Hrun. cbn [List.length] in Hroom.
    destruct (step o st) as [st1|] eqn:Hstep; [|discriminate].
    destruct (step_balanced o st st1 Hb ltac:(lia) Hstep) as [Hb1 Hk].
    apply (IH st1 Hb1); [lia | exact Hrun].
Qed.

(** What emptying a header list releases, entry by entry. *)
Lemma free_headers_entries (l : list MHD_HTTP_Header) :
  free_headers l =
    flat_map (fun e => [free_string (header e); free_string (value e);
                        free_node e]) l.
Proof.
  induction l as [|e l IH]; [reflexivity|].
  cbn [free_headers flat_map app]. now rewrite IH.
Qed.

(** The count after [k] calls of [MHD_increment_response_rc]. *)
Lemma increments_counted (k : nat) (r : MHD_Response) :
  0 <= reference_count r ->
  reference_count r + Z.of_nat k <= UINT_MAX ->
  reference_count (Nat.iter k MHD_increment_response_rc r)
  = reference_count r + Z.of_nat k.
Proof.
  intros Hpos. induction k as [|k IH]; intros Hmax.
  - cbn. lia.
  - rewrite Nat.iter_succ, increment_counted by (rewrite IH; lia).
    cbn [reference_count set_reference_count]. rewrite IH by lia. lia.
Qed.

(** C2. [MHD_destroy_response] on a response whose count is [n >= 1] takes
    the count down by one. When that leaves zero it frees the header list
    (the name, the value and the node of every entry) and the response
    object; when it does not, it frees nothing and every field but the
    count is as it was. [MHD_increment_response_rc] takes the count up by
    one and changes nothing else. So a response created with count 1 and
    queued against [k] connections has a count of at least [k], and
    whatever the application and the connections do with it, while it is
    alive its count is at least the number of connections holding it, and
    its memory is released only once no connection holds it and the
    application has let go (the count has come down to zero). Counts are
    [unsigned int]: they and the number of operations stay below
    [UINT_MAX]. *)
Theorem C2_reference_counting :
  (forall r,
     1 <= reference_count r <= UINT_MAX ->
     reference_count r - 1 <> 0 ->
     exists r',
       MHD_destroy_response (Some r) = (Some r', []) /\
       reference_count r' = reference_count r - 1 /\
       first_header r' = first_header r /\
       data r' = data r /\ crc_cls r' = crc_cls r /\ crc r' = crc r /\
       crfc r' = crfc r /\ total_size r' = total_size r /\
       data_size r' = data_size r)
  /\
  (forall r,
     reference_count r - 1 = 0 ->
     MHD_destroy_response (Some r) =
       (None,
        flat_map (fun e => [free_string (header e); free_string (value e);
                            free_node e])
                 (first_header r)
        ++ [free_response]))
  /\
  (forall r,
     0 <= reference_count r < UINT_MAX ->
     reference_count (MHD_increment_response_rc r) = reference_count r + 1 /\
     first_header (MHD_increment_response_rc r) = first_header r /\
     data (MHD_increment_response_rc r) = data r /\
     crc_cls (MHD_increment_response_rc r) = crc_cls r /\
     crc (MHD_increment_response_rc r) = crc r /\
     crfc (MHD_increment_response_rc r) = crfc r /\
     total_size (MHD_increment_response_rc r) = total_size r /\
     data_size (MHD_increment_response_rc r) = data_size r)
  /\
  (forall r k,
     reference_count r = 1 ->
     Z.of_nat k < UINT_MAX ->
     reference_count (Nat.iter k MHD_increment_response_rc r)
       = 1 + Z.of_nat k /\
     Z.of_nat k <= reference_count (Nat.iter k MHD_increment_response_rc r))
  /\
  (forall r ops st,
     reference_count r = 1 ->
     Z.of_nat (List.length ops) < UINT_MAX ->
     steps ops (created r) = Some st ->
     match cell st with
     | Some r' =>
         Z.of_nat (holders st) <= reference_count r' /\
         1 <= reference_count r'
     | None => holders st = O /\ app_holds st = false
     end).
Proof.
  split; [|split; [|split; [|split]]].
  - intros r Hrc Hleft. rewrite destroy_counted by exact Hrc.
    destruct (Z.eqb_spec (reference_count r) 1) as [E|N]; [lia|].
    eexists. split; [reflexivity|].
    destruct r; cbn. repeat (split; [reflexivity|]). reflexivity.
  - intros r Hone.
    rewrite destroy_counted by (unfold UINT_MAX; lia).
    replace (reference_count r) with 1 by lia. cbn [Z.eqb Pos.eqb].
    now rewrite free_headers_entries.
  - intros r Hrc. rewrite increment_counted by exact Hrc.
    destruct r; cbn. repeat (split; [reflexivity|]). reflexivity.
  - intros r k Hone Hk.
    rewrite increments_counted by lia. lia.
  - intros r ops st Hone Hlen Hrun.
    assert (Hb : balanced st).
    { apply (steps_balanced ops (created r)); [| |exact Hrun].
      - unfold balanced, created; cbn [cell holders app_holds]. lia.
      - unfold created; cbn [holders]. lia. }
    unfold balanced in Hb. destruct (cell st) as [r'|]; [|exact Hb].
    destruct Hb as [Hrc Hpos]. split; [|exact Hpos].
    destruct (app_holds st); lia.
Qed.

(** A response queued against two connections, released by the
    application, and finished with by both connections: the count goes
    1, 2, 3, 2, 1, and the memory goes with the last reference. *)
Example sharing_run :
  option_map (fun st => (option_map reference_count (cell st), holders st))
    (steps [queue; queue; release; finish] (created example_response))
    = Some (Some 1, 1%nat)
  /\ option_map (fun st => (option_map reference_count (cell st), holders st))
       (steps [queue; queue; release; finish; finish]
              (created example_response))
     = Some (None, 0%nat).
Proof. split; reflexivity. Qed.

Lemma load_length (h : heap) (p : ptr) (n : nat) (bytes : list ascii) :
  load h p n = Some bytes -> List.length bytes = n.
Proof.
  unfold load. destruct (nth_error h (block p)) as [blk|]; [|discriminate].
  destruct (Nat.leb_spec (offset p + n) (List.length blk)); [|discriminate].
  intros [= <-]. rewrite length_firstn, length_skipn. lia.
Qed.

Lemma load_block (h : heap) (p : ptr) (n : nat) :
  load h p n <> None -> (block p < List.length h)%nat.
Proof.
  unfold load. intros Hl. apply nth_error_Some.
  destruct (nth_error h (block p)); congruence.
Qed.

(** A block put at the end of the heap leaves the others readable as
    before. *)
Lemma load_grown (h : heap) (blk : list ascii) (p : ptr) (n : nat) :
  (block p < List.length h)%nat ->
  load (h ++ [blk]) p n = load h p n.
Proof.
  intros Hb. unfold load. now rewrite nth_error_app1.
Qed.

Lemma set_block_last (h : heap) (old bytes : list ascii) :
  set_block (h ++ [old]) (List.length h) bytes = h ++ [bytes].
Proof.
  induction h as [|x h IH]; simpl; [reflexivity|]. now rewrite IH.
Qed.

Lemma load_last (h : heap) (bytes : list ascii) :
  load (h ++ [bytes]) (mkPtr (List.length h) 0) (List.length bytes)
  = Some bytes.
Proof.
  unfold load. cbn [block offset].
  rewrite nth_error_app2, Nat.sub_diag by lia. cbn [nth_error].
  rewrite Nat.leb_refl. cbn [skipn]. now rewrite firstn_all.
Qed.

(** The copying branch: the response gets a block of its own that holds
    the caller's bytes, and it is this block that is set up to be freed. *)
Lemma create_copies (h : heap) (size : N) (p : ptr) (must_free must_copy : Z)
  (bytes : list ascii) :
  truthy must_copy = true -> (0 < size)%N ->
  load h p (N.to_nat size) = Some bytes ->
  MHD_create_response_from_data h 0 size (Some p) must_free must_copy =
    Some (Some (mkResponse [] (Some (mkPtr (List.length h) 0))
                           (Some (mkPtr (List.length h) 0))
                           None (Some libc_free) 1 size size),
          h ++ [bytes]).
Proof.
  intros Hcopy Hsize Hload.
  unfold MHD_create_response_from_data, malloc, memcpy.
  apply N.ltb_lt in Hsize. rewrite Hcopy, Hsize. cbn [negb Z.eqb andb].
  rewrite load_grown
    by (apply (load_block h p (N.to_nat size)); congruence).
  rewrite Hload. cbn [block]. rewrite set_block_last. reflexivity.
Qed.

(** C9, as amended. [MHD_create_response_from_data] returns NULL exactly
    when [data] is NULL with [size > 0] or the mutex cannot be
    initialised. A response it creates has count 1, [total_size] equal to
    [size], no content reader and no headers. With [must_copy] set and
    [size > 0] its data is a block of its own, holding the caller's bytes,
    and the free hook is libc's [free] on that block, whatever [must_free]
    says: the caller's buffer is left as it was and is not what the hook
    is set to free. *)
Theorem C9_create_response_from_data
  (h : heap) (mutex_init : Z) (size : N) (data : option ptr)
  (must_free must_copy : Z) :
  readable h data size ->
  exists result h',
    MHD_create_response_from_data h mutex_init size data must_free must_copy
      = Some (result, h') /\
    (result = None <->
     (data = None /\ (0 < size)%N) \/ mutex_init <> 0) /\
    (forall r,
       result = Some r ->
       reference_count r = 1 /\ total_size r = size /\
       crc r = None /\ first_header r = [] /\
       (truthy must_copy = true -> (0 < size)%N ->
        exists p tmp,
          data = Some p /\ Response.data r = Some tmp /\
          nth_error h (block tmp) = None /\
          load h' tmp (N.to_nat size) = load h p (N.to_nat size) /\
          load h' p (N.to_nat size) = load h p (N.to_nat size) /\
          crfc r = Some libc_free /\ crc_cls r = Some tmp /\
          crc_cls r <> data)).
Proof.
  intros Hbuf.
  destruct (Z.eqb_spec mutex_init 0) as [->|Hmx].
  2:{ exists None, h. split; [|split].
      - unfold MHD_create_response_from_data.
        apply Z.eqb_neq in Hmx. rewrite Hmx.
        now destruct data, (0 <? size)%N.
      - split; [intros _; right; exact Hmx | reflexivity].
      - discriminate. }
  destruct data as [p|].
  - destruct (truthy must_copy && (0 <? size)%N) eqn:Hbranch.
    + apply andb_true_iff in Hbranch. destruct Hbranch as [Hcopy Hsize].
      apply N.ltb_lt in Hsize. cbn [readable] in Hbuf.
      destruct (load h p (N.to_nat size)) as [bytes|] eqn:Hload;
        [|contradiction].
      eexists _, _. split; [apply (create_copies _ _ _ _ _ bytes);
                             assumption|].
      split; [split; [discriminate | intros [[? _]|?]; congruence]|].
      intros r [= <-]. cbn [reference_count total_size crc first_header].
      repeat (split; [reflexivity|]). intros _ _.
      exists p, (mkPtr (List.length h) 0).
      cbn [Response.data crfc crc_cls block].
      assert (Hp : (block p < List.length h)%nat)
        by (apply (load_block h p (N.to_nat size)); congruence).
      repeat split.
      * apply nth_error_None. lia.
      * rewrite Hload, <- (load_length _ _ _ _ Hload). apply load_last.
      * now rewrite load_grown by exact Hp.
      * intros [= E]. rewrite <- E in Hp. cbn [block] in Hp. lia.
    + eexists _, h. split; [|split].
      * unfold MHD_create_response_from_data. rewrite Hbranch.
        cbn [Z.eqb negb]. now destruct (0 <? size)%N.
      * split; [discriminate | intros [[? _]|?]; congruence].
      * intros r [= <-]. cbn [reference_count total_size crc first_header].
        repeat (split; [reflexivity|]). intros Hcopy Hsize.
        apply N.ltb_lt in Hsize. rewrite Hcopy, Hsize in Hbranch.
        discriminate.
  - destruct (N.ltb_spec 0 size) as [Hsize|Hsize].
    + exists None, h. split; [|split].
      * unfold MHD_create_response_from_data.
        apply N.ltb_lt in Hsize. now rewrite Hsize.
      * split; [intros _; left; split; [reflexivity | exact Hsize]
               | reflexivity].
      * discriminate.
    + eexists _, h. split; [|split].
      * unfold MHD_create_response_from_data.
        apply N.ltb_ge in Hsize. rewrite Hsize, andb_false_r.
        cbn [Z.eqb negb]. reflexivity.
      * split; [discriminate | intros [[_ ?]|?]; [lia | congruence]].
      * intros r [= <-]. cbn [reference_count total_size crc first_header].
        repeat (split; [reflexivity|]). intros _ Hpos. lia.
Qed.

(** Copying the five bytes at offset 7 of the caller's buffer. *)
Lemma C9_create_response_from_data_witness :
  readable example_heap (Some example_data) 5 /\
  exists result h',
    MHD_create_response_from_data example_heap 0 5 (Some example_data) 0 1
      = Some (result, h') /\
    (result = None <->
     (Some example_data = None /\ (0 < 5)%N) \/ 0 <> 0) /\
    (forall r,
       result = Some r ->
       reference_count r = 1 /\ total_size r = 5%N /\
       crc r = None /\ first_header r = [] /\
       (truthy 1 = true -> (0 < 5)%N ->
        exists p tmp,
          Some example_data = Some p /\ Response.data r = Some tmp /\
          nth_error example_heap (block tmp) = None /\
          load h' tmp (N.to_nat 5) = load example_heap p (N.to_nat 5) /\
          load h' p (N.to_nat 5) = load example_heap p (N.to_nat 5) /\
          crfc r = Some libc_free /\ crc_cls r = Some tmp /\
          crc_cls r <> Some example_data)).
Proof.
  split; [vm_compute; discriminate|].
  apply (C9_create_response_from_data
           example_heap 0 5 (Some example_data) 0 1).
  vm_compute. discriminate.
Defined.

Example create_copies_world :
  MHD_create_response_from_data example_heap 0 5 (Some example_data) 0 1 =
    Some (Some (mkResponse [] (Some (mkPtr 1 0)) (Some (mkPtr 1 0))
                           None (Some libc_free) 1 5 5),
          example_heap ++ [list_ascii_of_string "world"]).
Proof. reflexivity. Qed.

(** C9, as stated, fails: with nothing wrong about [data] and [size], the
    result is still NULL when [pthread_mutex_init] reports an error (here
    12, ENOMEM). *)
Lemma C9_null_result_counterexample :
  MHD_create_response_from_data [] 12 0 None 0 0 = Some (None, [])
  /\ ~ (@None ptr = None /\ (0 < 0)%N).
Proof.
  split; [reflexivity|]. intros [_ H]. discriminate H.
Qed.

End ResponseFacts.

(** * Properties of the TLS adapter *)

Module ConnectionFacts.
Import CInt ConnectionHttps ConnectionSpec.

Lemma wrap_time_small (x : Z) : - 2 ^ 63 <= x <= TIME_MAX -> wrap_time x = x.
Proof.
  unfold wrap_time, TIME_MAX. intros Hx. rewrite Z.mod_small; lia.
Qed.


Section Adapter.
Context {session : Type} `{TlsLibrary session} `{PlainHandlers session}.

(** What closing a TLS connection leaves behind. *)
Lemma tls_close_effect (code : MHD_RequestTerminationCode)
  (w : world session) :
  state (connection (MHD_tls_connection_close code w))
    = MHD_CONNECTION_CLOSED /\
  socket_fd (connection (MHD_tls_connection_close code w)) = -1 /\
  trace (MHD_tls_connection_close code w)
    = trace w ++ [bye_called; terminated code].
Proof.
  unfold MHD_tls_connection_close, MHD_connection_close, call_gnutls_bye,
    emit, set_state, set_socket_fd, set_tls_session.
  cbn. rewrite <- app_assoc. repeat split.
Qed.

(** The handshake branch shared by the two I/O handlers. *)
Lemma handshake_step (now : Z) (w : world session)
  (step : Z -> world session -> Z * world session) :
  step = MHD_tls_connection_handle_read \/
  step = MHD_tls_connection_handle_write ->
  state (connection w) = MHD_TLS_CONNECTION_INIT ->
  step now w =
    let (ret, w1) := call_gnutls_handshake (set_last_activity w now) in
    if ret =? GNUTLS_E_SUCCESS
    then (MHD_YES, set_state w1 MHD_CONNECTION_INIT)
    else if (ret =? GNUTLS_E_AGAIN) || (ret =? GNUTLS_E_INTERRUPTED)
    then (MHD_YES, w1)
    else (MHD_NO,
          MHD_tls_connection_close MHD_REQUEST_TERMINATED_WITH_ERROR w1).
Proof.
  intros [-> | ->] Hst;
    [unfold MHD_tls_connection_handle_read
    |unfold MHD_tls_connection_handle_write];
    cbn [set_last_activity connection state]; rewrite Hst; reflexivity.
Qed.

(** C1. For a connection in state [MHD_TLS_CONNECTION_INIT], one step of
    the read handler or of the write handler calls the handshake once.
    When the handshake succeeds the state becomes [MHD_CONNECTION_INIT]
    and the handler answers [MHD_YES]; when it reports again or
    interrupted the state stays and the handler answers [MHD_YES]; on any
    other result the connection is closed with termination code
    with-error and the handler answers [MHD_NO]. *)
Theorem C1_tls_handshake_step (now : Z) (w : world session)
  (step : Z -> world session -> Z * world session) :
  step = MHD_tls_connection_handle_read \/
  step = MHD_tls_connection_handle_write ->
  state (connection w) = MHD_TLS_CONNECTION_INIT ->
  let ret := fst (gnutls_handshake (tls_session (connection w))) in
  let answer := fst (step now w) in
  let w' := snd (step now w) in
  (ret = GNUTLS_E_SUCCESS ->
   answer = MHD_YES /\
   state (connection w') = MHD_CONNECTION_INIT /\
   trace w' = trace w ++ [handshake_called])
  /\
  (ret = GNUTLS_E_AGAIN \/ ret = GNUTLS_E_INTERRUPTED ->
   answer = MHD_YES /\
   state (connection w') = MHD_TLS_CONNECTION_INIT /\
   trace w' = trace w ++ [handshake_called])
  /\
  (ret <> GNUTLS_E_SUCCESS -> ret <> GNUTLS_E_AGAIN ->
   ret <> GNUTLS_E_INTERRUPTED ->
   answer = MHD_NO /\
   w' = MHD_tls_connection_close MHD_REQUEST_TERMINATED_WITH_ERROR
          (snd (call_gnutls_handshake (set_last_activity w now))) /\
   state (connection w') = MHD_CONNECTION_CLOSED /\
   socket_fd (connection w') = -1 /\
   trace w' =
     trace w ++ [handshake_called; bye_called;
                 terminated MHD_REQUEST_TERMINATED_WITH_ERROR]).
Proof.
  intros Hstep Hst. cbv zeta.
  rewrite (handshake_step now w step Hstep Hst).
  unfold call_gnutls_handshake.
  cbn [set_last_activity connection tls_session].
  destruct (gnutls_handshake (tls_session (connection w))) as [ret s].
  cbn [fst].
  split; [|split].
  - intros ->. cbn. repeat split.
  - intros [-> | ->]; cbn; repeat split; exact Hst.
  - intros Hs Ha Hi.
    apply Z.eqb_neq in Hs, Ha, Hi. rewrite Hs, Ha, Hi. cbn [orb fst snd].
    destruct (tls_close_effect MHD_REQUEST_TERMINATED_WITH_ERROR
                (emit (set_tls_session (set_last_activity w now) s)
                      handshake_called)) as (E1 & E2 & E3).
    cbn [set_last_activity connection tls_session] in *.
    split; [reflexivity|]. split; [reflexivity|].
    split; [exact E1|]. split; [exact E2|].
    rewrite E3. cbn [emit trace]. rewrite <- app_assoc. reflexivity.
Qed.





End Adapter.


(** The stand-in handlers leave a CLOSED connection alone. *)
Lemma quiet_read_leaves_closed_alone :
  leaves_closed_alone (@MHD_connection_handle_read _ quiet_handlers).
Proof. intros now w Hst. cbn. auto. Qed.

Lemma quiet_write_leaves_closed_alone :
  leaves_closed_alone (@MHD_connection_handle_write _ quiet_handlers).
Proof. intros now w Hst. cbn. auto. Qed.

(** A handshake that fails with a fatal alert (-12) on a readable
    socket. *)
Lemma C1_tls_handshake_step_witness :
  state (connection (example_world MHD_TLS_CONNECTION_INIT 0 [-12]))
    = MHD_TLS_CONNECTION_INIT /\
  fst (@MHD_tls_connection_handle_read _ scripted_tls quiet_handlers 100
         (example_world MHD_TLS_CONNECTION_INIT 0 [-12])) = MHD_NO /\
  snd (@MHD_tls_connection_handle_read _ scripted_tls quiet_handlers 100
         (example_world MHD_TLS_CONNECTION_INIT 0 [-12]))
    = mkWorld (mkConnection (-1) MHD_CONNECTION_CLOSED 100 0 [])
              [handshake_called; bye_called;
               terminated MHD_REQUEST_TERMINATED_WITH_ERROR] /\
  state (connection
           (snd (@MHD_tls_connection_handle_read _ scripted_tls
                   quiet_handlers 100
                   (example_world MHD_TLS_CONNECTION_INIT 0 [-12]))))
    = MHD_CONNECTION_CLOSED /\
  socket_fd (connection
               (snd (@MHD_tls_connection_handle_read _ scripted_tls
                       quiet_handlers 100
                       (example_world MHD_TLS_CONNECTION_INIT 0 [-12]))))
    = -1 /\
  trace (snd (@MHD_tls_connection_handle_read _ scripted_tls
                quiet_handlers 100
                (example_world MHD_TLS_CONNECTION_INIT 0 [-12])))
    = [handshake_called; bye_called;
       terminated MHD_REQUEST_TERMINATED_WITH_ERROR].
Proof.
  split; [reflexivity|].
  apply (proj2 (proj2
           (@C1_tls_handshake_step _ scripted_tls quiet_handlers 100
              (example_world MHD_TLS_CONNECTION_INIT 0 [-12])
              MHD_tls_connection_handle_read
              (or_introl eq_refl) eq_refl)));
    vm_compute; discriminate.
Defined.

(** The same connection when the handshake goes through, on a writable
    socket. *)
Example handshake_done :
  @MHD_tls_connection_handle_write _ scripted_tls quiet_handlers 100
    (example_world MHD_TLS_CONNECTION_INIT 0 [GNUTLS_E_SUCCESS])
  = (MHD_YES,
     mkWorld (mkConnection 5 MHD_CONNECTION_INIT 100 0 [])
             [handshake_called]).
Proof. reflexivity. Qed.



(** Handlers that leave a CLOSED connection alone are a case of the
    above, and so are the ones that close under the guard. *)
Lemma leaves_alone_closes_only_open {session : Type}
  (f : Z -> world session -> Z * world session) :
  leaves_closed_alone f -> closes_only_open_sockets f.
Proof.
  intros Hf now w Hst. destruct (Hf now w Hst) as (E1 & E2 & E3).
  split; [exact E1|]. left. split; [exact E2 | now rewrite E3].
Qed.



Example closed_by_plain_read :
  trace (@run _ scripted_tls guarded_handlers
           [(read_handler, 60); (idle_handler, 61);
            (write_handler, 62); (idle_handler, 63)]
           (example_world MHD_CONNECTION_CLOSED 0 []))
  = [terminated MHD_REQUEST_TERMINATED_COMPLETED_OK].
Proof. reflexivity. Qed.

Example closed_twice_idle :
  trace (@run _ scripted_tls quiet_handlers
           [(read_handler, 60); (idle_handler, 61);
            (write_handler, 62); (idle_handler, 63)]
           (example_world MHD_CONNECTION_CLOSED 0 []))
  = [bye_called; terminated MHD_REQUEST_TERMINATED_COMPLETED_OK].
Proof. reflexivity. Qed.

End ConnectionFacts.

(** * Further properties of the response operations *)

Module ResponseMore.
Import CInt CString Response ResponseSpec ResponseOps CStringFacts
  ResponseFacts.

Lemma set_first_header_same (r : MHD_Response) :
  set_first_header r (first_header r) = r.
Proof. now destruct r. Qed.

Lemma set_reference_count_same (r : MHD_Response) :
  set_reference_count r (reference_count r) = r.
Proof. now destruct r. Qed.

Lemma matches_self (h c : cstring) (k : MHD_ValueKind) :
  matches h c (mkHeader h c k) = true.
Proof. apply matches_spec. split; reflexivity. Qed.

(** Deleting the pair that was just added takes the new entry off again
    and gives the response back as it was, even when an older entry
    carries the same pair. *)
Theorem add_then_del_restores (r r' : MHD_Response) (h c : cstring) :
  MHD_add_response_header (Some r) (Some h) (Some c) = (MHD_YES, Some r') ->
  MHD_del_response_header r' (Some h) (Some c) =
    (MHD_YES, r,
     [free_string h; free_string c;
      free_node (mkHeader h c MHD_HEADER_KIND)]).
Proof.
  intros Hadd.
  destruct (add_cases r h c) as [E|E]; rewrite E in Hadd.
  - discriminate Hadd.
  - injection Hadd as <-.
    unfold MHD_del_response_header.
    cbn [first_header set_first_header del_loop].
    rewrite matches_self. cbn [header value].
    f_equal. f_equal. now destruct r.
Qed.

Lemma add_then_del_restores_witness :
  (MHD_add_response_header (Some three_headers) (Some "a") (Some "1")
   = (MHD_YES,
      Some (set_first_header three_headers
              (mkHeader "a" "1" MHD_HEADER_KIND
                 :: first_header three_headers)))
   /\
   MHD_del_response_header
     (set_first_header three_headers
        (mkHeader "a" "1" MHD_HEADER_KIND :: first_header three_headers))
     (Some "a") (Some "1")
   = (MHD_YES, three_headers,
      [free_string "a"; free_string "1";
       free_node (mkHeader "a" "1" MHD_HEADER_KIND)]))%string.
Proof.
  split; [reflexivity|].
  apply (add_then_del_restores three_headers _ "a"%string "1"%string).
  reflexivity.
Defined.

(** What the loop of [MHD_del_response_header] found, read back from its
    result. *)
Lemma del_loop_inv (h c : cstring) (l : list MHD_HTTP_Header) :
  match del_loop h c l with
  | Some (l', fr) =>
      exists l1 e l2,
        l = l1 ++ e :: l2 /\ l' = l1 ++ l2 /\ is_entry h c e /\
        (forall x, In x l1 -> ~ is_entry h c x) /\
        fr = [free_string (header e); free_string (value e); free_node e]
  | None => forall x, In x l -> ~ is_entry h c x
  end.
Proof.
  induction l as [|p next IH]; cbn [del_loop].
  - intros x [].
  - destruct (matches h c p) eqn:Mp.
    + apply matches_spec in Mp.
      exists [], p, next.
      split; [reflexivity|]. split; [reflexivity|]. split; [exact Mp|].
      split; [intros x [] | reflexivity].
    + assert (Np : ~ is_entry h c p).
      { intros Hp. apply matches_spec in Hp. congruence. }
      destruct (del_loop h c next) as [[l' fr]|].
      * destruct IH as (l1 & e & l2 & -> & -> & He & Hpre & ->).
        exists (p :: l1), e, l2.
        split; [reflexivity|]. split; [reflexivity|]. split; [exact He|].
        split; [|reflexivity].
        intros x [<-|Hx]; [exact Np | now apply Hpre].
      * intros x [<-|Hx]; [exact Np | now apply IH].
Qed.

(** [MHD_del_response_header] answers [MHD_YES] exactly when the list
    holds an entry with this name and this value; the list is then one
    entry shorter, and on [MHD_NO] nothing has changed and nothing was
    released. Either way nothing but the header list is touched. *)
Theorem del_decides_membership
  (r : MHD_Response) (h c : cstring) :
  let ret := fst (fst (MHD_del_response_header r (Some h) (Some c))) in
  let r' := snd (fst (MHD_del_response_header r (Some h) (Some c))) in
  let released := snd (MHD_del_response_header r (Some h) (Some c)) in
  (ret = MHD_YES <-> exists e, In e (first_header r) /\ is_entry h c e) /\
  (ret = MHD_YES \/ ret = MHD_NO) /\
  (ret = MHD_YES ->
   List.length (first_header r) = S (List.length (first_header r'))) /\
  (ret = MHD_NO -> r' = r /\ released = []) /\
  r' = set_first_header r (first_header r').
Proof.
  cbv zeta. unfold MHD_del_response_header.
  pose proof (del_loop_inv h c (first_header r)) as Hinv.
  destruct (del_loop h c (first_header r)) as [[l' fr]|];
    cbn [fst snd].
  - destruct Hinv as (l1 & e & l2 & Hl & -> & He & _ & _).
    split; [|split; [|split; [|split]]].
    + split; [|reflexivity]. intros _. exists e. split; [|exact He].
      rewrite Hl. apply in_elt.
    + left; reflexivity.
    + intros _. rewrite Hl. cbn [set_first_header first_header].
      rewrite !length_app. cbn [List.length]. lia.
    + discriminate.
    + reflexivity.
  - split; [|split; [|split; [|split]]].
    + split; [discriminate|]. intros (e & Hin & He).
      exfalso. exact (Hinv e Hin He).
    + right; reflexivity.
    + discriminate.
    + intros _. split; reflexivity.
    + symmetry. apply set_first_header_same.
Qed.

Lemma add_clean (r : MHD_Response) (h c : option cstring) :
  Forall clean (first_header r) ->
  Forall clean (first_header (apply_op r (op_add h c))) /\
  apply_op r (op_add h c) =
    set_first_header r (first_header (apply_op r (op_add h c))).
Proof.
  intros Hr. cbn [apply_op].
  destruct h as [h|], c as [c|]; cbn [MHD_add_response_header snd];
    try (split; [exact Hr | symmetry; apply set_first_header_same]).
  pose proof (add_check_split h c) as Hchk.
  destruct (_ || found (strstr c (lit LF))) eqn:E; cbn [snd].
  - split; [exact Hr | symmetry; apply set_first_header_same].
  - split; [|reflexivity].
    cbn [set_first_header first_header]. constructor; [|exact Hr].
    unfold clean, strdup. cbn [kind header value].
    split; [reflexivity|].
    split; intros Hbad; apply (eq_true_false_abs _ (proj2 Hchk
      ltac:(first [left; exact Hbad | right; exact Hbad])) eq_refl).
Qed.

Lemma del_clean (r : MHD_Response) (h c : option cstring) :
  Forall clean (first_header r) ->
  Forall clean (first_header (apply_op r (op_del h c))) /\
  apply_op r (op_del h c) =
    set_first_header r (first_header (apply_op r (op_del h c))).
Proof.
  intros Hr. cbn [apply_op]. unfold MHD_del_response_header.
  destruct h as [h|], c as [c|]; cbn [fst snd];
    try (split; [exact Hr | symmetry; apply set_first_header_same]).
  pose proof (del_loop_inv h c (first_header r)) as Hinv.
  destruct (del_loop h c (first_header r)) as [[l' fr]|]; cbn [fst snd].
  - destruct Hinv as (l1 & e & l2 & Hl & -> & _).
    split; [|reflexivity].
    cbn [set_first_header first_header].
    rewrite Hl in Hr. apply Forall_app in Hr. destruct Hr as [H1 H2].
    apply Forall_app. split; [exact H1|]. now inversion H2.
  - split; [exact Hr | symmetry; apply set_first_header_same].
Qed.

(** Whatever an application adds and deletes, with whatever arguments,
    every entry of the header list stays as [MHD_add_response_header]
    makes them: of kind header, name and value not empty and free of tab,
    carriage return and line feed. The calls touch nothing but the header
    list. *)
Theorem header_ops_keep_entries_clean
  (ops : list header_op) (r : MHD_Response) :
  Forall clean (first_header r) ->
  Forall clean (first_header (apply_ops ops r)) /\
  apply_ops ops r = set_first_header r (first_header (apply_ops ops r)).
Proof.
  unfold apply_ops. revert r.
  induction ops as [|o rest IH]; intros r Hr; cbn [fold_left].
  - split; [exact Hr | symmetry; apply set_first_header_same].
  - assert (Hstep : Forall clean (first_header (apply_op r o)) /\
                    apply_op r o =
                      set_first_header r (first_header (apply_op r o)))
      by (destruct o; [apply add_clean | apply del_clean]; exact Hr).
    destruct Hstep as [Hc Hsame].
    destruct (IH _ Hc) as [Hc' Hsame'].
    split; [exact Hc'|].
    rewrite Hsame' at 1. rewrite Hsame at 1. reflexivity.
Qed.

Lemma header_ops_keep_entries_clean_witness :
  Forall clean (first_header example_response) /\
  Forall clean (first_header (apply_ops example_ops example_response)) /\
  apply_ops example_ops example_response =
    set_first_header example_response
      (first_header (apply_ops example_ops example_response)).
Proof.
  split; [constructor|].
  apply (header_ops_keep_entries_clean example_ops example_response).
  constructor.
Defined.

Example example_ops_result :
  (first_header (apply_ops example_ops example_response)
   = [mkHeader "Age" "0" MHD_HEADER_KIND;
      mkHeader "Server" "mhd" MHD_HEADER_KIND])%string.
Proof. reflexivity. Qed.

Lemma set_first_header_twice (r : MHD_Response)
  (l l' : list MHD_HTTP_Header) :
  set_first_header (set_first_header r l) l' = set_first_header r l'.
Proof. reflexivity. Qed.

Lemma accepted_skip (p : cstring * cstring) (pairs : list (cstring * cstring))
  (rets : list Z) :
  accepted (p :: pairs) (MHD_NO :: rets) = accepted pairs rets.
Proof. reflexivity. Qed.

Lemma accepted_keep (p : cstring * cstring) (pairs : list (cstring * cstring))
  (rets : list Z) :
  accepted (p :: pairs) (MHD_YES :: rets) = p :: accepted pairs rets.
Proof. reflexivity. Qed.

(** The response a run of add calls leaves, whatever the calls answer. *)
Lemma add_all_result (pairs : list (cstring * cstring)) (r : MHD_Response) :
  snd (add_all (Some r) pairs) =
    Some (set_first_header r
            (rev (map node_of (accepted pairs (fst (add_all (Some r) pairs))))
             ++ first_header r)).
Proof.
  revert r. induction pairs as [|[h c] rest IH]; intros r.
  - cbn. now rewrite set_first_header_same.
  - cbn [add_all].
    destruct (add_cases r h c) as [E|E]; rewrite E.
    + specialize (IH r). destruct (add_all (Some r) rest) as [rets final].
      cbn [fst snd] in *. now rewrite accepted_skip.
    + specialize (IH (set_first_header r
                        (mkHeader h c MHD_HEADER_KIND :: first_header r))).
      destruct (add_all _ rest) as [rets final].
      cbn [fst snd] in *. rewrite accepted_keep, IH.
      cbn [map rev node_of fst snd first_header set_first_header].
      rewrite <- app_assoc. reflexivity.
Qed.

(** In a run of [MHD_add_response_header] calls the ones that are turned
    down leave no trace: afterwards an iteration shows the accepted pairs,
    newest first, and then what was there before; nothing but the header
    list has changed. *)
Theorem add_all_keeps_accepted
  (r : MHD_Response) (pairs : list (cstring * cstring)) :
  exists r',
    snd (add_all (Some r) pairs) = Some r' /\
    headers_seen r' =
      rev (accepted pairs (fst (add_all (Some r) pairs))) ++ headers_seen r /\
    r' = set_first_header r (first_header r').
Proof.
  eexists. split; [apply add_all_result|]. split; [|reflexivity].
  rewrite !headers_seen_list. cbn [set_first_header first_header].
  rewrite map_app, map_rev, map_map. f_equal. f_equal.
  rewrite <- (map_id (accepted _ _)) at 2.
  apply map_ext. now intros [h c].
Qed.

Example mixed_run :
  (fst (add_all (Some three_headers) mixed_pairs)
     = [MHD_YES; MHD_NO; MHD_YES]
   /\ option_map headers_seen (snd (add_all (Some three_headers) mixed_pairs))
     = Some [("Age", "0"); ("Server", "mhd");
             ("a", "1"); ("b", "2"); ("c", "3")])%string.
Proof. split; reflexivity. Qed.

Lemma iterated_nonempty {S : Type} (it : MHD_KeyValueIterator S)
  (s s' : S) (p : MHD_HTTP_Header) (next visited : list MHD_HTTP_Header) :
  iterated it s (p :: next) visited s' -> visited <> [].
Proof. intros Hit. inversion Hit; discriminate. Qed.

(** Whatever the iterator does, [MHD_get_response_headers] returns a
    count between 0 and the number of headers, and 0 only for a response
    without headers: on one that has headers the iterator is called at
    least once. *)
Theorem get_response_headers_count_bounds
  (response : MHD_Response) (S : Type)
  (iterator : option (MHD_KeyValueIterator S)) (cls : S) :
  Z.of_nat (List.length (first_header response)) <= INT_MAX ->
  0 <= fst (MHD_get_response_headers response iterator cls)
    <= Z.of_nat (List.length (first_header response)) /\
  (fst (MHD_get_response_headers response iterator cls) = 0 <->
   first_header response = []).
Proof.
  intros Hlen. unfold MHD_get_response_headers.
  destruct iterator as [it|].
  - destruct (get_loop_iterated it (first_header response) cls 0)
      as (visited & rest & Hsplit & Hit & Hcnt); [lia | lia |].
    rewrite Hcnt, Hsplit, length_app. split; [lia|].
    split.
    + intros Hz. destruct visited; [|cbn [List.length] in Hz; lia].
      destruct (first_header response) as [|p next] eqn:El;
        [now rewrite <- Hsplit|].
      exfalso. exact (iterated_nonempty it _ _ _ _ _ Hit eq_refl).
    + intros Hnil. apply app_eq_nil in Hnil. destruct Hnil as [-> _].
      reflexivity.
  - rewrite get_loop_count by lia. cbn [fst]. split; [lia|].
    split.
    + intros Hz. destruct (first_header response); [reflexivity|].
      cbn [List.length] in Hz. lia.
    + intros ->. reflexivity.
Qed.

Lemma get_response_headers_count_bounds_witness :
  Z.of_nat (List.length (first_header three_headers)) <= INT_MAX /\
  0 <= fst (MHD_get_response_headers three_headers
              (Some stop_at_second) O)
    <= Z.of_nat (List.length (first_header three_headers)) /\
  (fst (MHD_get_response_headers three_headers (Some stop_at_second) O) = 0
   <-> first_header three_headers = []).
Proof.
  split; [vm_compute; discriminate|].
  apply (get_response_headers_count_bounds three_headers nat
           (Some stop_at_second) O).
  vm_compute; discriminate.
Defined.

(** With a NULL iterator the count follows the calls: one more after an
    add that answered [MHD_YES], one less after a delete that answered
    [MHD_YES], the same after a call that answered [MHD_NO]. *)
Theorem header_count_follows_calls
  (r : MHD_Response) (h c : option cstring) :
  Z.of_nat (List.length (first_header r)) < INT_MAX ->
  (forall ret r',
     MHD_add_response_header (Some r) h c = (ret, Some r') ->
     fst (MHD_get_response_headers r' None tt) =
       fst (MHD_get_response_headers r None tt)
       + (if ret =? MHD_YES then 1 else 0))
  /\
  (forall ret r' fr,
     MHD_del_response_header r h c = (ret, r', fr) ->
     fst (MHD_get_response_headers r' None tt) =
       fst (MHD_get_response_headers r None tt)
       - (if ret =? MHD_YES then 1 else 0)).
Proof.
  intros Hlen. unfold MHD_get_response_headers. split.
  - intros ret r' Hadd.
    assert (Hcases : ret = MHD_NO /\ r' = r \/
                     ret = MHD_YES /\
                     exists e, first_header r' = e :: first_header r).
    { destruct h as [h|], c as [c|];
        try (left; cbn in Hadd; injection Hadd as <- <-; now split).
      destruct (add_cases r h c) as [E|E]; rewrite E in Hadd;
        injection Hadd as <- <-; [left; now split|].
      right. split; [reflexivity|]. eexists. reflexivity. }
    destruct Hcases as [[-> ->] | [-> [e He]]].
    + cbn [Z.eqb MHD_NO MHD_YES]. lia.
    + rewrite !get_loop_count by (rewrite ?He; cbn [List.length]; lia).
      rewrite He. cbn [fst List.length]. rewrite Z.eqb_refl. lia.
  - intros ret r' fr Hdel.
    pose proof (del_decides_membership r) as Hmem.
    destruct h as [h|], c as [c|];
      try (cbn in Hdel; injection Hdel as <- <- _;
           cbn [Z.eqb MHD_NO MHD_YES]; lia).
    specialize (Hmem h c). cbv zeta in Hmem. rewrite Hdel in Hmem.
    cbn [fst snd] in Hmem.
    destruct Hmem as (_ & [-> | ->] & Hyes & Hno & _).
    + specialize (Hyes eq_refl).
      rewrite !get_loop_count by lia.
      cbn [fst]. rewrite Z.eqb_refl, Hyes. lia.
    + destruct (Hno eq_refl) as [-> _].
      cbn [Z.eqb MHD_NO MHD_YES]. lia.
Qed.

Lemma header_count_follows_calls_witness :
  Z.of_nat (List.length (first_header three_headers)) < INT_MAX /\
  fst (MHD_get_response_headers
         (set_first_header three_headers
            [mkHeader "a" "1" MHD_HEADER_KIND;
             mkHeader "c" "3" MHD_HEADER_KIND]%string) None tt)
  = fst (MHD_get_response_headers three_headers None tt)
    - (if MHD_YES =? MHD_YES then 1 else 0).
Proof.
  split; [vm_compute; reflexivity|].
  apply (proj2 (header_count_follows_calls three_headers
                  (Some "b"%string) (Some "2"%string)
                  ltac:(vm_compute; reflexivity))
           MHD_YES _ [free_string "b"; free_string "2";
                      free_node (mkHeader "b" "2" MHD_HEADER_KIND)]%string).
  reflexivity.
Defined.

(** Taking a reference and giving it back: [MHD_destroy_response] undoes
    [MHD_increment_response_rc] and releases nothing. *)
Lemma increment_then_destroy (r : MHD_Response) :
  1 <= reference_count r < UINT_MAX ->
  MHD_destroy_response (Some (MHD_increment_response_rc r)) = (Some r, []).
Proof.
  intros Hrc. rewrite increment_counted by lia.
  rewrite destroy_counted
    by (cbn [reference_count set_reference_count]; lia).
  change (reference_count (set_reference_count r (reference_count r + 1)))
    with (reference_count r + 1).
  destruct (Z.eqb_spec (reference_count r + 1) 1); [lia|].
  change (set_reference_count
            (set_reference_count r (reference_count r + 1))
            (reference_count r + 1 - 1))
    with (set_reference_count r (reference_count r + 1 - 1)).
  replace (reference_count r + 1 - 1) with (reference_count r) by lia.
  now rewrite set_reference_count_same.
Qed.

Lemma iter_increment (k : nat) (r : MHD_Response) :
  0 <= reference_count r ->
  reference_count r + Z.of_nat k <= UINT_MAX ->
  Nat.iter k MHD_increment_response_rc r =
    set_reference_count r (reference_count r + Z.of_nat k).
Proof.
  intros Hpos. induction k as [|k IH]; intros Hmax.
  - cbn. rewrite Z.add_0_r. symmetry.
    apply set_reference_count_same.
  - rewrite Nat.iter_succ, IH by lia.
    rewrite increment_counted
      by (cbn [reference_count set_reference_count]; lia).
    change (reference_count
              (set_reference_count r (reference_count r + Z.of_nat k)))
      with (reference_count r + Z.of_nat k).
    change (set_reference_count
              (set_reference_count r (reference_count r + Z.of_nat k))
              (reference_count r + Z.of_nat k + 1))
      with (set_reference_count r (reference_count r + Z.of_nat k + 1)).
    f_equal. lia.
Qed.

(** A live response that is referenced [k] more times and then destroyed
    [k] times is the response it was, and nothing of it has been
    released on the way (the count stays inside [unsigned int]). *)
Theorem increments_undone_by_destroys (k : nat) (r : MHD_Response) :
  1 <= reference_count r ->
  reference_count r + Z.of_nat k <= UINT_MAX ->
  destroy_times k (Some (Nat.iter k MHD_increment_response_rc r))
  = (Some r, []).
Proof.
  intros Hlive. induction k as [|k IH]; intros Hmax.
  - reflexivity.
  - rewrite Nat.iter_succ. cbn [destroy_times].
    rewrite increment_then_destroy
      by (rewrite iter_increment by lia;
          cbn [reference_count set_reference_count]; lia).
    rewrite IH by lia. reflexivity.
Qed.

Lemma increments_undone_by_destroys_witness :
  1 <= reference_count three_headers /\
  reference_count three_headers + Z.of_nat 3 <= UINT_MAX /\
  destroy_times 3 (Some (Nat.iter 3 MHD_increment_response_rc three_headers))
  = (Some three_headers, []).
Proof.
  split; [vm_compute; discriminate|].
  split; [vm_compute; discriminate|].
  apply (increments_undone_by_destroys 3 three_headers);
    vm_compute; discriminate.
Defined.

Lemma free_headers_nodes (l : list (cstring * cstring)) :
  free_headers (map node_of l) = flat_map release_of l.
Proof.
  induction l as [|p l IH]; [reflexivity|].
  cbn [map free_headers flat_map release_of app node_of header value].
  now rewrite IH.
Qed.

Lemma accepted_all (pairs : list (cstring * cstring)) (rets : list Z) :
  List.length rets = List.length pairs ->
  Forall (eq MHD_YES) rets ->
  accepted pairs rets = pairs.
Proof.
  revert rets. induction pairs as [|p pairs IH]; intros [|ret rets] Hlen Hall;
    try discriminate; [reflexivity|].
  inversion Hall as [|? ? <- Hrest]; subst.
  rewrite accepted_keep, IH; [reflexivity | now injection Hlen | exact Hrest].
Qed.

Lemma add_all_results_length (pairs : list (cstring * cstring))
  (response : option MHD_Response) :
  List.length (fst (add_all response pairs)) = List.length pairs.
Proof.
  revert response. induction pairs as [|[h c] rest IH]; intros response;
    [reflexivity|].
  cbn [add_all].
  destruct (MHD_add_response_header response (Some h) (Some c)) as [ret r1].
  specialize (IH r1). destruct (add_all r1 rest) as [rets final].
  cbn [fst List.length] in *. now rewrite IH.
Qed.

(** Nothing that was added stays behind: when the last reference to a
    response goes, [MHD_destroy_response] releases the name, the value
    and the node of every header that was added to it, newest first, and
    then the response itself. *)
Theorem last_destroy_releases_added_headers
  (r : MHD_Response) (pairs : list (cstring * cstring)) :
  fresh r ->
  reference_count r = 1 ->
  Forall (eq MHD_YES) (fst (add_all (Some r) pairs)) ->
  exists r',
    snd (add_all (Some r) pairs) = Some r' /\
    MHD_destroy_response (Some r') =
      (None, flat_map release_of (rev pairs) ++ [free_response]).
Proof.
  intros Hfresh Hone Hall.
  eexists. split; [apply add_all_result|].
  rewrite accepted_all by (try apply add_all_results_length; exact Hall).
  rewrite Hfresh, app_nil_r.
  rewrite destroy_counted
    by (cbn [reference_count set_first_header]; unfold UINT_MAX; lia).
  cbn [reference_count set_first_header first_header]. rewrite Hone.
  cbn [Z.eqb Pos.eqb]. rewrite <- map_rev, free_headers_nodes.
  reflexivity.
Qed.

Lemma last_destroy_releases_added_headers_witness :
  fresh example_response /\
  reference_count example_response = 1 /\
  Forall (eq MHD_YES) (fst (add_all (Some example_response) example_pairs))
  /\
  exists r',
    snd (add_all (Some example_response) example_pairs) = Some r' /\
    MHD_destroy_response (Some r') =
      (None, flat_map release_of (rev example_pairs) ++ [free_response]).
Proof.
  split; [reflexivity|].
  split; [reflexivity|].
  split; [repeat constructor|].
  apply (last_destroy_releases_added_headers example_response example_pairs).
  - reflexivity.
  - reflexivity.
  - repeat constructor.
Defined.





(** [MHD_create_response_from_callback] returns NULL exactly when the
    reader is NULL or the mutex cannot be initialised. A response it
    creates keeps the reader, its argument and its free hook as given,
    has count 1 and the given total size, and holds no data and no
    headers. *)
Theorem create_response_from_callback_result
  (mutex_init : Z) (size : N) (crc : option MHD_ContentReaderCallback)
  (crc_cls : option ptr) (crfc : option MHD_ContentReaderFreeCallback) :
  (MHD_create_response_from_callback mutex_init size crc crc_cls crfc = None
   <-> crc = None \/ mutex_init <> 0) /\
  (forall r,
     MHD_create_response_from_callback mutex_init size crc crc_cls crfc
       = Some r ->
     Response.crc r = crc /\ Response.crc_cls r = crc_cls /\
     Response.crfc r = crfc /\ reference_count r = 1 /\
     total_size r = size /\ data r = None /\ data_size r = 0%N /\
     first_header r = []).
Proof.
  unfold MHD_create_response_from_callback.
  destruct crc as [f|].
  - destruct (Z.eqb_spec mutex_init 0) as [->|Hmx]; cbn [negb].
    + split.
      * split; [discriminate | intros [E|E]; [discriminate | congruence]].
      * intros r [= <-]. cbn. repeat split.
    + split; [split; [intros _; right; exact Hmx | reflexivity]
             | discriminate].
  - split; [split; [intros _; left; reflexivity | reflexivity]
           | discriminate].
Qed.

End ResponseMore.

(** * Further properties of the TLS adapter *)

Module ConnectionMore.
Import CInt ConnectionHttps ConnectionSpec ConnectionRuns ConnectionFacts.

Section Adapter.
Context {session : Type} `{TlsLibrary session} `{PlainHandlers session}.

(** The world an I/O step starts the handshake call from, and the one the
    call leaves. *)
Lemma io_step_cases (now : Z) (w : world session)
  (step : Z -> world session -> Z * world session) :
  step = MHD_tls_connection_handle_read \/
  step = MHD_tls_connection_handle_write ->
  state (connection w) = MHD_TLS_CONNECTION_INIT ->
  let ret := fst (gnutls_handshake (tls_session (connection w))) in
  let w1 := emit (set_tls_session (set_last_activity w now)
                    (snd (gnutls_handshake (tls_session (connection w)))))
                 handshake_called in
  ret = GNUTLS_E_SUCCESS /\
    step now w = (MHD_YES, set_state w1 MHD_CONNECTION_INIT)
  \/
  (ret = GNUTLS_E_AGAIN \/ ret = GNUTLS_E_INTERRUPTED) /\
    step now w = (MHD_YES, w1)
  \/
  (ret <> GNUTLS_E_SUCCESS /\ ret <> GNUTLS_E_AGAIN /\
   ret <> GNUTLS_E_INTERRUPTED) /\
    step now w =
      (MHD_NO, MHD_tls_connection_close MHD_REQUEST_TERMINATED_WITH_ERROR w1).
Proof.
  intros Hstep Hst. cbv zeta.
  rewrite (handshake_step now w step Hstep Hst).
  unfold call_gnutls_handshake.
  cbn [set_last_activity connection tls_session].
  destruct (gnutls_handshake (tls_session (connection w))) as [ret s].
  cbn [fst snd].
  destruct (Z.eqb_spec ret GNUTLS_E_SUCCESS) as [Es|Ns];
    [left; split; [exact Es | reflexivity]|].
  destruct (Z.eqb_spec ret GNUTLS_E_AGAIN) as [Ea|Na];
    [right; left; split; [left; exact Ea | reflexivity]|].
  destruct (Z.eqb_spec ret GNUTLS_E_INTERRUPTED) as [Ei|Ni];
    [right; left; split; [right; exact Ei | reflexivity]|].
  right; right. split; [repeat split; assumption | reflexivity].
Qed.

Lemma idle_step_cases (now : Z) (w : world session) :
  state (connection w) = MHD_TLS_CONNECTION_INIT ->
  MHD_tls_connection_handle_idle now w = (MHD_YES, w) \/
  MHD_tls_connection_handle_idle now w =
    (MHD_NO,
     MHD_tls_connection_close MHD_REQUEST_TERMINATED_TIMEOUT_REACHED w).
Proof.
  intros Hst. unfold MHD_tls_connection_handle_idle, idle_switch.
  rewrite Hst.
  match goal with
  | |- context [if ?b then _ else _] => destruct b
  end; [right | left]; reflexivity.
Qed.

(** While the handshake is pending, every handler step answers [MHD_NO]
    exactly when it leaves the connection CLOSED, and [MHD_YES]
    otherwise. The state it leaves is the handshake state, CLOSED, or,
    after a read or write step only, [MHD_CONNECTION_INIT]. To the outside
    the step does one of four things: nothing (idle), one handshake call
    (read, write), a handshake call followed by [gnutls_bye] and the
    with-error termination (read, write), or [gnutls_bye] and the timeout
    termination (idle). No termination is reported without [gnutls_bye]
    right before it, and the idle step never calls the handshake. *)
Theorem handshake_phase_step (h : handler) (now : Z) (w : world session) :
  state (connection w) = MHD_TLS_CONNECTION_INIT ->
  let answer := fst (MHD_set_https_callbacks h now w) in
  let w' := snd (MHD_set_https_callbacks h now w) in
  (answer = MHD_NO <-> state (connection w') = MHD_CONNECTION_CLOSED) /\
  (answer = MHD_YES \/ answer = MHD_NO) /\
  (state (connection w') = MHD_TLS_CONNECTION_INIT \/
   state (connection w') = MHD_CONNECTION_INIT /\ h <> idle_handler \/
   state (connection w') = MHD_CONNECTION_CLOSED) /\
  (trace w' = trace w /\ h = idle_handler \/
   trace w' = trace w ++ [handshake_called] /\ h <> idle_handler \/
   trace w' =
     trace w ++ [handshake_called; bye_called;
                 terminated MHD_REQUEST_TERMINATED_WITH_ERROR]
     /\ h <> idle_handler \/
   trace w' =
     trace w ++ [bye_called;
                 terminated MHD_REQUEST_TERMINATED_TIMEOUT_REACHED]
     /\ h = idle_handler).
Proof.
  intros Hst. cbv zeta.
  assert (Hio : h <> idle_handler ->
                MHD_set_https_callbacks h = MHD_tls_connection_handle_read \/
                MHD_set_https_callbacks h = MHD_tls_connection_handle_write)
    by (destruct h; [left | right | congruence]; reflexivity).
  destruct h.
  1, 2:
    destruct (io_step_cases now w _ (Hio ltac:(discriminate)) Hst)
      as [[_ E] | [[_ E] | [_ E]]]; rewrite E; cbn [fst snd];
    [ split; [split; discriminate|];
      split; [left; reflexivity|];
      split; [right; left; split; [reflexivity | discriminate]|];
      right; left; split; [reflexivity | discriminate]
    | split; [split; [discriminate | cbn; rewrite Hst; discriminate]|];
      split; [left; reflexivity|];
      split; [left; exact Hst|];
      right; left; split; [reflexivity | discriminate]
    | match goal with
      | |- context [MHD_tls_connection_close ?code ?w0] =>
          destruct (tls_close_effect code w0) as (E1 & _ & E3)
      end;
      split; [split; [intros _; exact E1 | reflexivity]|];
      split; [right; reflexivity|];
      split; [right; right; exact E1|];
      right; right; left; split; [|discriminate];
      rewrite E3; cbn [emit trace]; rewrite <- app_assoc; reflexivity ].
  cbn [MHD_set_https_callbacks].
  destruct (idle_step_cases now w Hst) as [E|E]; rewrite E; cbn [fst snd].
  - split; [split; [discriminate | rewrite Hst; discriminate]|].
    split; [left; reflexivity|].
    split; [left; exact Hst|].
    left. split; reflexivity.
  - destruct (tls_close_effect MHD_REQUEST_TERMINATED_TIMEOUT_REACHED w)
      as (E1 & _ & E3).
    split; [split; [intros _; exact E1 | reflexivity]|].
    split; [right; reflexivity|].
    split; [right; right; exact E1|].
    right; right; right. split; [exact E3 | reflexivity].
Qed.

(** An I/O step during the handshake puts the timeout off: when the
    handshake asks to be called again, an idle step that comes no more
    than the timeout after the I/O step does not close the connection and
    leaves it untouched. *)
Theorem io_step_puts_timeout_off (t1 t2 : Z) (w : world session)
  (step : Z -> world session -> Z * world session) :
  step = MHD_tls_connection_handle_read \/
  step = MHD_tls_connection_handle_write ->
  state (connection w) = MHD_TLS_CONNECTION_INIT ->
  fst (gnutls_handshake (tls_session (connection w))) = GNUTLS_E_AGAIN \/
  fst (gnutls_handshake (tls_session (connection w))) = GNUTLS_E_INTERRUPTED ->
  0 <= connection_timeout (connection w) <= UINT_MAX ->
  0 <= t2 <= TIME_MAX ->
  t2 - t1 <= connection_timeout (connection w) ->
  MHD_tls_connection_handle_idle t2 (snd (step t1 w))
  = (MHD_YES, snd (step t1 w)).
Proof.
  intros Hstep Hst Hagain Htimeout Ht2 Hsoon.
  destruct (io_step_cases t1 w step Hstep Hst)
    as [[Es _] | [[_ E] | [(_ & Na & Ni) _]]].
  - exfalso. unfold GNUTLS_E_SUCCESS, GNUTLS_E_AGAIN, GNUTLS_E_INTERRUPTED in *.
    destruct Hagain; lia.
  - rewrite E. cbn [snd].
    unfold MHD_tls_connection_handle_idle, idle_switch.
    cbn [emit set_tls_session set_last_activity connection socket_fd state
         last_activity connection_timeout].
    rewrite Hst.
    unfold UINT_MAX, TIME_MAX in *.
    rewrite wrap_time_small by (unfold TIME_MAX; lia).
    destruct (Z.ltb_spec t1 (t2 - connection_timeout (connection w)));
      [lia|].
    now rewrite andb_false_r.
  - exfalso. destruct Hagain; contradiction.
Qed.

(** Once the handshake has succeeded the adapter is out of the way. The
    step in which it succeeds leaves the connection in
    [MHD_CONNECTION_INIT]. In every state but the handshake state a read
    or write step is the plain handler's step, on the connection with its
    activity time set to the clock. So from then on, over any sequence of
    read and write steps, the run through the adapter is the run through
    the plain handlers, as long as these do not put the connection back
    into the handshake state. *)
Theorem established_connection_passes_through :
  (forall t1 (w : world session) step,
     step = MHD_tls_connection_handle_read \/
     step = MHD_tls_connection_handle_write ->
     state (connection w) = MHD_TLS_CONNECTION_INIT ->
     fst (gnutls_handshake (tls_session (connection w))) = GNUTLS_E_SUCCESS ->
     state (connection (snd (step t1 w))) = MHD_CONNECTION_INIT)
  /\
  (forall t2 (w2 : world session),
     state (connection w2) <> MHD_TLS_CONNECTION_INIT ->
     MHD_tls_connection_handle_read t2 w2 =
       MHD_connection_handle_read t2 (set_last_activity w2 t2) /\
     MHD_tls_connection_handle_write t2 w2 =
       MHD_connection_handle_write t2 (set_last_activity w2 t2))
  /\
  (forall steps (w2 : world session),
     stays_established MHD_connection_handle_read ->
     stays_established MHD_connection_handle_write ->
     io_only steps ->
     state (connection w2) <> MHD_TLS_CONNECTION_INIT ->
     run steps w2 = plain_run steps w2).
Proof.
  assert (Hpass : forall t2 (w2 : world session),
            state (connection w2) <> MHD_TLS_CONNECTION_INIT ->
            MHD_tls_connection_handle_read t2 w2 =
              MHD_connection_handle_read t2 (set_last_activity w2 t2) /\
            MHD_tls_connection_handle_write t2 w2 =
              MHD_connection_handle_write t2 (set_last_activity w2 t2)).
  { intros t2 w2 Hst.
    unfold MHD_tls_connection_handle_read, MHD_tls_connection_handle_write.
    cbn [set_last_activity connection state].
    destruct (state (connection w2)); try (split; reflexivity).
    contradiction. }
  split; [|split; [exact Hpass|]].
  - intros t1 w step Hstep Hst Hok.
    destruct (io_step_cases t1 w step Hstep Hst)
      as [[_ E] | [[Hagain _] | [(Ns & _) _]]].
    + rewrite E. reflexivity.
    + exfalso.
      unfold GNUTLS_E_SUCCESS, GNUTLS_E_AGAIN, GNUTLS_E_INTERRUPTED in *.
      destruct Hagain; lia.
    + contradiction.
  - intros steps w2 Hread Hwrite Hio. revert w2.
    induction steps as [|[h now] rest IH]; intros w2 Hst; [reflexivity|].
    inversion Hio as [|? ? Hh Hrest]; subst. cbn [fst] in Hh.
    cbn [run plain_run]. destruct (Hpass now w2 Hst) as [Er Ew].
    destruct h; cbn [MHD_set_https_callbacks]; [| |congruence].
    + rewrite Er. apply (IH Hrest). apply Hread. exact Hst.
    + rewrite Ew. apply (IH Hrest). apply Hwrite. exact Hst.
Qed.

Lemma last_cons_default (l : list Z) (x d : Z) :
  last (x :: l) d = last l x.
Proof.
  revert x d. induction l as [|y l IH]; intros x d; [reflexivity|].
  change (last (x :: y :: l) d) with (last (y :: l) d).
  now rewrite !IH.
Qed.

Lemma app_repeat_shift (t : list event) (n : nat) :
  (t ++ [handshake_called]) ++ repeat handshake_called n
  = t ++ repeat handshake_called (S n).
Proof. now rewrite <- app_assoc. Qed.

(** As long as the handshake asks to be called again, read and write
    steps keep the connection in the handshake state: however many come,
    each calls the handshake once and nothing else, and the socket stays
    open. *)
Theorem handshake_is_retried (steps : list (handler * Z))
  (w : world session) :
  io_only steps ->
  state (connection w) = MHD_TLS_CONNECTION_INIT ->
  keeps_asking (List.length steps) (tls_session (connection w)) ->
  state (connection (run steps w)) = MHD_TLS_CONNECTION_INIT /\
  socket_fd (connection (run steps w)) = socket_fd (connection w) /\
  trace (run steps w) =
    trace w ++ repeat handshake_called (List.length steps) /\
  last_activity (connection (run steps w)) =
    last (map snd steps) (last_activity (connection w)).
Proof.
  revert w. induction steps as [|[h now] rest IH]; intros w Hio Hst Hask.
  - cbn. rewrite app_nil_r. repeat split; assumption.
  - inversion Hio as [|? ? Hh Hrest]; subst. cbn [fst] in Hh.
    cbn [List.length keeps_asking] in Hask. destruct Hask as [Hagain Hnext].
    assert (Hstep : MHD_set_https_callbacks h =
                      MHD_tls_connection_handle_read \/
                    MHD_set_https_callbacks h =
                      MHD_tls_connection_handle_write)
      by (destruct h; [left | right | congruence]; reflexivity).
    cbn [run].
    destruct (io_step_cases now w _ Hstep Hst)
      as [[Es _] | [[_ E] | [(_ & Na & Ni) _]]].
    + exfalso.
      unfold GNUTLS_E_SUCCESS, GNUTLS_E_AGAIN, GNUTLS_E_INTERRUPTED in *.
      destruct Hagain; lia.
    + rewrite E. cbn [snd].
      destruct (IH (emit (set_tls_session (set_last_activity w now)
                            (snd (gnutls_handshake
                                    (tls_session (connection w)))))
                         handshake_called) Hrest Hst Hnext)
        as (I1 & I2 & I3 & I4).
      split; [exact I1|]. split; [exact I2|].
      split; [rewrite I3; cbn [emit trace List.length];
              apply app_repeat_shift|].
      rewrite I4.
      cbn [emit set_tls_session set_last_activity connection last_activity
           map snd].
      symmetry. apply last_cons_default.
    + exfalso. destruct Hagain; contradiction.
Qed.

End Adapter.

Lemma handshake_phase_step_witness :
  state (connection (example_world MHD_TLS_CONNECTION_INIT 30 [-12]))
    = MHD_TLS_CONNECTION_INIT /\
  (fst (@MHD_set_https_callbacks _ scripted_tls quiet_handlers
          write_handler 60
          (example_world MHD_TLS_CONNECTION_INIT 30 [-12])) = MHD_NO
   <->
   state (connection
            (snd (@MHD_set_https_callbacks _ scripted_tls quiet_handlers
                    write_handler 60
                    (example_world MHD_TLS_CONNECTION_INIT 30 [-12]))))
     = MHD_CONNECTION_CLOSED).
Proof.
  split; [reflexivity|].
  apply (proj1 (@handshake_phase_step _ scripted_tls quiet_handlers
                  write_handler 60
                  (example_world MHD_TLS_CONNECTION_INIT 30 [-12])
                  eq_refl)).
Defined.

(** Readable at 100, idle at 120, timeout 30: the connection was last
    active at 50 and would have been closed without the read. *)
Lemma io_step_puts_timeout_off_witness :
  state (connection
           (example_world MHD_TLS_CONNECTION_INIT 30 [GNUTLS_E_AGAIN]))
    = MHD_TLS_CONNECTION_INIT /\
  0 <= 30 <= UINT_MAX /\ 0 <= 120 <= TIME_MAX /\ 120 - 100 <= 30 /\
  @MHD_tls_connection_handle_idle _ scripted_tls quiet_handlers 120
    (snd (@MHD_tls_connection_handle_read _ scripted_tls quiet_handlers 100
            (example_world MHD_TLS_CONNECTION_INIT 30 [GNUTLS_E_AGAIN])))
  = (MHD_YES,
     snd (@MHD_tls_connection_handle_read _ scripted_tls quiet_handlers 100
            (example_world MHD_TLS_CONNECTION_INIT 30 [GNUTLS_E_AGAIN]))).
Proof.
  split; [reflexivity|].
  split; [vm_compute; split; discriminate|].
  split; [vm_compute; split; discriminate|].
  split; [vm_compute; discriminate|].
  apply (@io_step_puts_timeout_off _ scripted_tls quiet_handlers 100 120
           (example_world MHD_TLS_CONNECTION_INIT 30 [GNUTLS_E_AGAIN])
           MHD_tls_connection_handle_read
           (or_introl eq_refl) eq_refl (or_introl eq_refl));
    vm_compute; try split; discriminate.
Defined.

Example idle_without_the_read :
  fst (@MHD_tls_connection_handle_idle _ scripted_tls quiet_handlers 120
         (example_world MHD_TLS_CONNECTION_INIT 30 [GNUTLS_E_AGAIN]))
  = MHD_NO.
Proof. reflexivity. Qed.

Lemma established_connection_passes_through_witness :
  state (connection
           (example_world MHD_TLS_CONNECTION_INIT 0 [GNUTLS_E_SUCCESS]))
    = MHD_TLS_CONNECTION_INIT /\
  state (connection
           (snd (@MHD_tls_connection_handle_write _ scripted_tls
                   quiet_handlers 60
                   (example_world MHD_TLS_CONNECTION_INIT 0
                      [GNUTLS_E_SUCCESS]))))
    = MHD_CONNECTION_INIT.
Proof.
  split; [reflexivity|].
  apply (proj1 (@established_connection_passes_through _ scripted_tls
                  quiet_handlers)
           60 (example_world MHD_TLS_CONNECTION_INIT 0 [GNUTLS_E_SUCCESS])
           MHD_tls_connection_handle_write
           (or_intror eq_refl) eq_refl eq_refl).
Defined.

Lemma handshake_is_retried_witness :
  io_only [(read_handler, 60); (write_handler, 61); (read_handler, 62)] /\
  @keeps_asking _ scripted_tls 3
    [GNUTLS_E_AGAIN; GNUTLS_E_INTERRUPTED; GNUTLS_E_AGAIN] /\
  trace (@run _ scripted_tls quiet_handlers
           [(read_handler, 60); (write_handler, 61); (read_handler, 62)]
           (example_world MHD_TLS_CONNECTION_INIT 0
              [GNUTLS_E_AGAIN; GNUTLS_E_INTERRUPTED; GNUTLS_E_AGAIN]))
  = [handshake_called; handshake_called; handshake_called].
Proof.
  assert (Hio : io_only [(read_handler, 60); (write_handler, 61);
                         (read_handler, 62)])
    by (repeat constructor; discriminate).
  assert (Hask : @keeps_asking _ scripted_tls 3
                   [GNUTLS_E_AGAIN; GNUTLS_E_INTERRUPTED; GNUTLS_E_AGAIN])
    by (cbn; tauto).
  split; [exact Hio|]. split; [exact Hask|].
  apply (proj1 (proj2 (proj2
           (@handshake_is_retried _ scripted_tls quiet_handlers
              [(read_handler, 60); (write_handler, 61); (read_handler, 62)]
              (example_world MHD_TLS_CONNECTION_INIT 0
                 [GNUTLS_E_AGAIN; GNUTLS_E_INTERRUPTED; GNUTLS_E_AGAIN])
              Hio eq_refl Hask)))).
Defined.


End ConnectionMore.

(** * Properties of the test helpers *)

Module TestSupportFacts.
Import CInt TestSupport.

(** [get_port] returns a port that is at least the requested minimum, at
    least 2, and at most 65535: the sum never leaves [uint16_t]. *)
Theorem get_port_in_range (tv_usec min : Z) :
  0 <= min <= 65535 ->
  0 <= tv_usec ->
  Z.max 2 min <= get_port tv_usec min <= 65535.
Proof.
  intros Hmin Husec. unfold get_port, wrap_uint16.
  assert (Hm : exists m, (if 2 >? min then 2 else min) = m /\
                         m = Z.max 2 min /\ 2 <= m <= 65535).
  { destruct (Z.gtb_spec 2 min); eexists; repeat split; lia. }
  destruct Hm as (m & -> & Hmax & Hm).
  pose proof (Z.rem_bound_pos (tv_usec + 10) (2 ^ 16 - m)
                ltac:(lia) ltac:(lia)) as Hrem.
  rewrite Z.mod_small by lia. lia.
Qed.

Lemma get_port_in_range_witness :
  0 <= 65535 <= 65535 /\ 0 <= 999999 /\
  Z.max 2 65535 <= get_port 999999 65535 <= 65535.
Proof.
  split; [vm_compute; split; discriminate|].
  split; [vm_compute; discriminate|].
  apply (get_port_in_range 999999 65535); vm_compute;
    try split; discriminate.
Defined.

(** [copyBuffer] on a collector that is in order, handed [size * nmemb]
    bytes: either the bytes do not fit, and it returns 0 and changes
    nothing, or it returns their number, and what has been received is
    what had been received followed by the new bytes. The collector is in
    order afterwards, so the position never passes the capacity, and
    nothing is written outside the buffer. *)
Theorem copyBuffer_appends_or_refuses
  (ptr : list ascii) (size nmemb : Z) (cbc : CBC) :
  well_formed cbc ->
  size * nmemb = Z.of_nat (List.length ptr) ->
  TestSupport.size cbc + Z.of_nat (List.length ptr) < 2 ^ 64 ->
  exists ret cbc',
    copyBuffer ptr size nmemb cbc = Some (ret, cbc') /\
    well_formed cbc' /\
    TestSupport.size cbc' = TestSupport.size cbc /\
    (ret = 0 /\ cbc' = cbc /\
     TestSupport.size cbc < pos cbc + Z.of_nat (List.length ptr)
     \/
     ret = Z.of_nat (List.length ptr) /\
     pos cbc' = pos cbc + ret /\
     received cbc' = received cbc ++ ptr).
Proof.
  intros [Hpos Hcap] Hlen Hroom. unfold copyBuffer, wrap_size.
  rewrite Hlen.
  rewrite (Z.mod_small (Z.of_nat (List.length ptr))) by lia.
  rewrite Z.mod_small by lia.
  destruct (Z.gtb_spec (pos cbc + Z.of_nat (List.length ptr))
              (TestSupport.size cbc)) as [Hfull|Hfits].
  - exists 0, cbc. split; [reflexivity|].
    split; [split; assumption|]. split; [reflexivity|].
    left. repeat split. lia.
  - destruct (Z.ltb_spec (Z.of_nat (List.length ptr))
                (Z.of_nat (List.length ptr))) as [Habs|_]; [lia|].
    destruct (Z.ltb_spec (Z.of_nat (List.length (buf cbc)))
                (pos cbc + Z.of_nat (List.length ptr))) as [Habs|_]; [lia|].
    cbn [orb]. eexists _, _. split; [reflexivity|].
    rewrite Nat2Z.id, firstn_all.
    assert (Hfirst : List.length (firstn (Z.to_nat (pos cbc)) (buf cbc))
                     = Z.to_nat (pos cbc))
      by (rewrite length_firstn; lia).
    split; [|split; [reflexivity|]].
    + unfold well_formed. cbn [pos TestSupport.size buf].
      split; [lia|].
      rewrite !length_app, Hfirst, length_skipn. lia.
    + right. split; [reflexivity|]. split; [reflexivity|].
      unfold received. cbn [pos buf].
      rewrite Z2Nat.inj_add by lia. rewrite Nat2Z.id.
      rewrite app_assoc, firstn_app.
      rewrite firstn_all2 by (rewrite length_app, Hfirst; lia).
      rewrite length_app, Hfirst, Nat.sub_diag, firstn_O.
      apply app_nil_r.
Qed.

Lemma copyBuffer_appends_or_refuses_witness :
  well_formed example_cbc /\
  2 * 2 = Z.of_nat (List.length (list_ascii_of_string "/1.1")) /\
  size example_cbc + Z.of_nat (List.length (list_ascii_of_string "/1.1"))
    < 2 ^ 64 /\
  exists ret cbc',
    copyBuffer (list_ascii_of_string "/1.1") 2 2 example_cbc
      = Some (ret, cbc') /\
    well_formed cbc' /\
    size cbc' = size example_cbc /\
    (ret = 0 /\ cbc' = example_cbc /\
     size example_cbc
       < pos example_cbc
         + Z.of_nat (List.length (list_ascii_of_string "/1.1"))
     \/
     ret = Z.of_nat (List.length (list_ascii_of_string "/1.1")) /\
     pos cbc' = pos example_cbc + ret /\
     received cbc' = received example_cbc ++ list_ascii_of_string "/1.1").
Proof.
  assert (Hwf : well_formed example_cbc)
    by (split; [vm_compute; split; discriminate | reflexivity]).
  split; [exact Hwf|]. split; [reflexivity|].
  split; [vm_compute; reflexivity|].
  apply (copyBuffer_appends_or_refuses
           (list_ascii_of_string "/1.1") 2 2 example_cbc
           Hwf eq_refl ltac:(vm_compute; reflexivity)).
Defined.

Example copyBuffer_run :
  copyBuffer (list_ascii_of_string "/1.1") 2 2 example_cbc
  = Some (4, mkCBC (list_ascii_of_string "HTTP/1.1....") 8 12)
  /\ copyBuffer (list_ascii_of_string "0123456789") 5 2 example_cbc
  = Some (0, example_cbc).
Proof. split; reflexivity. Qed.

End TestSupportFacts.

(** * Properties of the locking *)

Module ResponseLockingFacts.
Import CInt CString Response ResponseSpec ResponseLocking ResponseFacts.





Example destroy_last_reference_events :
  snd (MHD_destroy_response_events (Some three_headers))
  = [mutex_locked; count_written 0; mutex_unlocked; mutex_destroyed;
     headers_written [mkHeader "b" "2" MHD_HEADER_KIND;
                      mkHeader "c" "3" MHD_HEADER_KIND];
     headers_written [mkHeader "c" "3" MHD_HEADER_KIND];
     headers_written []]%string.
Proof. reflexivity. Qed.

End ResponseLockingFacts.
